(** * Blockly build tasks: chunk options, module wrappers, licence stripping

    A shallow embedding of [scripts/gulpfiles/build_tasks.js].  JavaScript
    strings are Rocq [string]s, one [ascii] per code unit (the texts handled
    here are ASCII source files and identifiers).  Node and npm library calls
    whose result depends on the machine ([globSync], [fs.unlinkSync],
    [rimraf]) and the constants imported from [./config] are parameters of
    the sections below; library functions on strings ([JSON.stringify],
    [String.prototype.replace], [path.posix.join]) are written out. *)

From Stdlib Require Import String Ascii List Bool Arith Lia.
From Stdlib Require Import DecimalString DecimalNat.
Import ListNotations.
Set Warnings "-register-all".
Local Open Scope list_scope.
Local Open Scope string_scope.

(** ** JavaScript strings *)

Module JS.

(** The line feed, written [\n] in the source. *)
Definition LF : ascii := "010"%char.
Definition CR : ascii := "013"%char.
Definition nl : string := String LF EmptyString.

Definition chars (s : string) : list ascii := list_ascii_of_string s.
Definition str (l : list ascii) : string := string_of_list_ascii l.

(** [Array.prototype.join]. *)
Fixpoint join (sep : string) (l : list string) : string :=
  match l with
  | [] => EmptyString
  | [x] => x
  | x :: rest => x ++ sep ++ join sep rest
  end.

(** [Array.prototype.push], one element and spread. *)
Definition push {A} (arr : list A) (x : A) : list A := (arr ++ [x])%list.
Definition push_all {A} (arr : list A) (xs : list A) : list A := (arr ++ xs)%list.

(** [String(n)] for a non-negative integer: decimal digits, no leading zero. *)
Definition of_nat (n : nat) : string := NilEmpty.string_of_uint (Nat.to_uint n).

(** [String.prototype.split] on a one-character separator. *)
Fixpoint split_go (sep : ascii) (cur : string) (s : string) : list string :=
  match s with
  | EmptyString => [cur]
  | String c rest =>
      if Ascii.eqb c sep then cur :: split_go sep EmptyString rest
      else split_go sep (cur ++ String c EmptyString) rest
  end.
Definition split (sep : ascii) (s : string) : list string :=
  split_go sep EmptyString s.

(** [s.replaceAll(a, b)] for one-character strings [a] and [b] (with [b] a
    lone dollar sign, which the replacement syntax leaves as it is). *)
Fixpoint replaceAll (a b : ascii) (s : string) : string :=
  match s with
  | EmptyString => EmptyString
  | String c rest => String (if Ascii.eqb c a then b else c) (replaceAll a b rest)
  end.

(** [s.replace(/\.js$/, '')]: the first index at which [.js] is followed by
    the end of the input, scanning from the left. *)
Fixpoint replace_js_suffix (s : string) : string :=
  match s with
  | EmptyString => EmptyString
  | String c rest =>
      if String.eqb s ".js" then EmptyString else String c (replace_js_suffix rest)
  end.

(** *** [JSON.stringify] on a string (QuoteJSONString) *)

Definition hex_digit (n : nat) : ascii :=
  match n with
  | 0 => "0" | 1 => "1" | 2 => "2" | 3 => "3" | 4 => "4" | 5 => "5"
  | 6 => "6" | 7 => "7" | 8 => "8" | 9 => "9" | 10 => "a" | 11 => "b"
  | 12 => "c" | 13 => "d" | 14 => "e" | _ => "f"
  end%char.

Definition backslash : ascii := "092"%char.
Definition dquote : ascii := "034"%char.

Definition unicode_escape (n : nat) : list ascii :=
  [backslash; "u"; "0"; "0"; hex_digit (n / 16); hex_digit (n mod 16)]%char.

Definition quote_char (c : ascii) : list ascii :=
  let n := nat_of_ascii c in
  if Nat.eqb n 8 then [backslash; "b"%char]
  else if Nat.eqb n 9 then [backslash; "t"%char]
  else if Nat.eqb n 10 then [backslash; "n"%char]
  else if Nat.eqb n 12 then [backslash; "f"%char]
  else if Nat.eqb n 13 then [backslash; "r"%char]
  else if Nat.eqb n 34 then [backslash; dquote]
  else if Nat.eqb n 92 then [backslash; backslash]
  else if Nat.ltb n 32 then unicode_escape n
  else [c].

Definition JSON_stringify (s : string) : string :=
  str (dquote :: flat_map quote_char (chars s) ++ [dquote])%list.

End JS.

(** ** [path.posix.join] (Node) *)

Module Path.

(** One step of [normalizeString]: [res] is the stack of kept segments, the
    last one first. *)
Definition normalize_step (allowAboveRoot : bool) (res : list string) (seg : string)
  : list string :=
  if String.eqb seg EmptyString || String.eqb seg "." then res
  else if String.eqb seg ".." then
    match res with
    | top :: below =>
        if String.eqb top ".." then (if allowAboveRoot then seg :: res else res)
        else below
    | [] => if allowAboveRoot then [seg] else []
    end
  else seg :: res.

Definition normalizeString (path : string) (allowAboveRoot : bool) : string :=
  JS.join "/" (List.rev (fold_left (normalize_step allowAboveRoot) (JS.split "/" path) [])).

Definition last_char (s : string) : option ascii := last (map Some (JS.chars s)) None.

Definition normalize (path : string) : string :=
  match path with
  | EmptyString => "."
  | String c0 _ =>
      let isAbsolute := Ascii.eqb c0 "/" in
      let trailingSeparator :=
        match last_char path with Some c => Ascii.eqb c "/" | None => false end in
      let p := normalizeString path (negb isAbsolute) in
      if String.eqb p EmptyString then
        (if isAbsolute then "/" else if trailingSeparator then "./" else ".")
      else
        let p := if trailingSeparator then p ++ "/" else p in
        if isAbsolute then "/" ++ p else p
  end.

(** [path.posix.join(a, b)]: the non-empty arguments joined by a slash, then
    normalised. *)
Definition posix_join (a b : string) : string :=
  match filter (fun s => negb (String.eqb s EmptyString)) [a; b] with
  | [] => "."
  | parts => normalize (JS.join "/" parts)
  end.

End Path.

(** ** Constants of the script *)

Definition COMPILED_SUFFIX : string := "_compressed".
Definition NAMESPACE_VARIABLE : string := "$".
Definition NAMESPACE_PROPERTY : string := "__namespace__".

(** ** Chunks *)

(** [chunk.files] is one glob or an array of globs. *)
Inductive Files : Type :=
| Glob (glob : string)
| GlobArray (globs : list string).

(** An object literal with string values: its own enumerable properties, in
    the order [for ... in] visits them. *)
Definition JSObject : Type := list (string * string).

(** [obj[key]]: the value of the property, [None] for [undefined]. *)
Fixpoint js_get (obj : JSObject) (key : string) : option string :=
  match obj with
  | [] => None
  | (k, v) :: rest => if String.eqb k key then Some v else js_get rest key
  end.

(** The keys [for (var k in obj)] runs through; no iteration when [obj] is
    [undefined]. *)
Definition for_in_keys (obj : option JSObject) : list string :=
  match obj with
  | None => []
  | Some o => map fst o
  end.

(** A value interpolated into a template literal. *)
Definition interpolate (v : option string) : string :=
  match v with
  | Some s => s
  | None => "undefined"
  end.

(** A chunk of the [chunks] list; [parent] is [None] for [null]. *)
Inductive Chunk : Type := mkChunk {
  name : string;
  files : Files;
  entry : string;
  scriptExport : string;
  scriptNamedExports : option JSObject;
  parent : option Chunk
}.

Definition set_parent (p : option Chunk) (c : Chunk) : Chunk :=
  mkChunk (name c) (files c) (entry c) (scriptExport c) (scriptNamedExports c) p.

Definition chunk_literals : list Chunk :=
  [ mkChunk "blockly" (Glob "core/**/*.js") "core/blockly.js" "Blockly" None None;
    mkChunk "blocks" (Glob "blocks/**/*.js") "blocks/blocks.js"
      "Blockly.libraryBlocks" None None;
    mkChunk "javascript"
      (GlobArray ["generators/javascript.js"; "generators/javascript/**/*.js"])
      "generators/javascript.js" "javascript"
      (Some [("Blockly.JavaScript", "javascriptGenerator")]) None;
    mkChunk "python"
      (GlobArray ["generators/python.js"; "generators/python/**/*.js"])
      "generators/python.js" "python"
      (Some [("Blockly.Python", "pythonGenerator")]) None;
    mkChunk "php"
      (GlobArray ["generators/php.js"; "generators/php/**/*.js"])
      "generators/php.js" "php"
      (Some [("Blockly.PHP", "phpGenerator")]) None;
    mkChunk "lua"
      (GlobArray ["generators/lua.js"; "generators/lua/**/*.js"])
      "generators/lua.js" "lua"
      (Some [("Blockly.Lua", "luaGenerator")]) None;
    mkChunk "dart"
      (GlobArray ["generators/dart.js"; "generators/dart/**/*.js"])
      "generators/dart.js" "dart"
      (Some [("Blockly.Dart", "dartGenerator")]) None ].

(** [chunks[0].parent = null], then [chunks[i].parent = chunks[0]]. *)
Definition chunks : list Chunk :=
  match chunk_literals with
  | [] => []
  | c0 :: others =>
      let root := set_parent None c0 in
      root :: map (set_parent (Some root)) others
  end.

(** ** Module paths and wrappers *)

Section Wrapper.

(** [posixPath(TSC_OUTPUT_DIR)], from [./config] and [../helpers]. *)
Variable TSC_OUTPUT_DIR_POSIX : string.

Definition modulePath (chunk : Chunk) : string :=
  let entryPath := Path.posix_join TSC_OUTPUT_DIR_POSIX (entry chunk) in
  "module$" ++ JS.replaceAll "/" "$" (JS.replace_js_suffix entryPath).

(** The five [let] variables of [chunkWrapper] after the [if (chunk.parent)]. *)
Record WrapperVars : Type := {
  amdDepsExpr : string;
  cjsDepsExpr : string;
  scriptDepsExpr : string;
  factoryArgs : string;
  namespaceExpr : string
}.

Definition wrapperVars (chunk : Chunk) : WrapperVars :=
  let init :=
    {| amdDepsExpr := EmptyString; cjsDepsExpr := EmptyString;
       scriptDepsExpr := EmptyString; factoryArgs := EmptyString;
       namespaceExpr := "{}" |} in
  match parent chunk with
  | Some p =>
      let parentFilename :=
        JS.JSON_stringify ("./" ++ name p ++ COMPILED_SUFFIX ++ ".js") in
      let args := "__parent__" in
      {| amdDepsExpr := parentFilename;
         cjsDepsExpr := "require(" ++ parentFilename ++ ")";
         scriptDepsExpr := "root." ++ scriptExport p;
         factoryArgs := args;
         namespaceExpr := args ++ "." ++ NAMESPACE_PROPERTY |}
  | None => init
  end.

(** The statement that saves the exports object at [chunk.scriptExport]. *)
Definition primaryExportStatement (chunk : Chunk) : string :=
  "root." ++ scriptExport chunk ++ " = factory("
    ++ scriptDepsExpr (wrapperVars chunk) ++ ");".

(** The body of the [for ... in] loop: the statement pushed for [location]. *)
Definition namedExportStatement (chunk : Chunk) (location : string) : string :=
  let namedExport :=
    match scriptNamedExports chunk with
    | Some obj => js_get obj location
    | None => None
    end in
  "root." ++ location ++ " = root." ++ scriptExport chunk ++ "."
    ++ interpolate namedExport ++ ";".

Definition scriptExportStatements (chunk : Chunk) : list string :=
  fold_left
    (fun stmts location => JS.push stmts (namedExportStatement chunk location))
    (for_in_keys (scriptNamedExports chunk))
    [primaryExportStatement chunk].

(** The lines of the template literal; each one ends with a line feed. *)
Definition template (lines : list string) : string :=
  String.concat EmptyString (map (fun l => l ++ JS.nl) lines).

Definition chunkWrapper (chunk : Chunk) : string :=
  let v := wrapperVars chunk in
  template
    [ "// Do not edit this file; automatically generated.";
      EmptyString;
      "/* eslint-disable */";
      ";(function(root, factory) {";
      "  if (typeof define === 'function' && define.amd) { // AMD";
      "    define([" ++ amdDepsExpr v ++ "], factory);";
      "  } else if (typeof exports === 'object') { // Node.js";
      "    module.exports = factory(" ++ cjsDepsExpr v ++ ");";
      "  } else { // Script";
      "    " ++ JS.join (JS.nl ++ "    ") (scriptExportStatements chunk);
      "  }";
      "}(this, function(" ++ factoryArgs v ++ ") {";
      "var " ++ NAMESPACE_VARIABLE ++ "=" ++ namespaceExpr v ++ ";";
      "%output%";
      modulePath chunk ++ "." ++ NAMESPACE_PROPERTY ++ "=" ++ NAMESPACE_VARIABLE ++ ";";
      "return " ++ modulePath chunk ++ ";";
      "}));" ].

End Wrapper.

(** ** Chunk options *)

(** The object [getChunkOptions] returns. *)
Record ChunkOptions : Type := {
  chunk : list string;
  js : list string;
  chunk_wrapper : list string
}.

Section ChunkResolution.

Variable TSC_OUTPUT_DIR_POSIX : string.

(** [globSync(glob, {cwd})]: the paths the pattern matches under [cwd]. *)
Variable globSync : string -> string -> list string.

(** [typeof chunk.files === 'string' ? [chunk.files] : chunk.files]. *)
Definition globs (c : Chunk) : list string :=
  match files c with
  | Glob g => [g]
  | GlobArray gs => gs
  end.

(** The [files] constant of the loop body. *)
Definition resolvedFiles (c : Chunk) : list string :=
  map (fun file => Path.posix_join TSC_OUTPUT_DIR_POSIX file)
      (flat_map (fun glob => globSync glob TSC_OUTPUT_DIR_POSIX) (globs c)).

(** The string pushed onto [chunkOptions] for a chunk with [n] files. *)
Definition chunkOption (c : Chunk) (n : nat) : string :=
  (name c ++ ":" ++ JS.of_nat n)
    ++ match parent c with
       | Some p => ":" ++ name p
       | None => EmptyString
       end.

(** One turn of [for (const chunk of chunks)] on the pair
    [(chunkOptions, allFiles)]. *)
Definition resolveChunk (acc : list string * list string) (c : Chunk)
  : list string * list string :=
  let '(chunkOptions, allFiles) := acc in
  let files := resolvedFiles c in
  (JS.push chunkOptions (chunkOption c (List.length files)),
   JS.push_all allFiles files).

Definition getChunkOptions (chunks : list Chunk) : ChunkOptions :=
  let '(chunkOptions, allFiles) := fold_left resolveChunk chunks ([], []) in
  let chunkWrappers :=
    map (fun c => name c ++ ":" ++ chunkWrapper TSC_OUTPUT_DIR_POSIX c) chunks in
  {| chunk := chunkOptions; js := allFiles; chunk_wrapper := chunkWrappers |}.

(** The path of the chunk's entry point among the compiled sources, as
    [modulePath] and [buildShims] compute it. *)
Definition entryPath (c : Chunk) : string :=
  Path.posix_join TSC_OUTPUT_DIR_POSIX (entry c).

End ChunkResolution.

(** The file count a chunk descriptor [name:count] or [name:count:parent]
    records: its second field, read as a decimal number. *)
Definition recordedCount (descriptor : string) : option nat :=
  match JS.split ":" descriptor with
  | _ :: count :: _ => option_map Nat.of_uint (NilEmpty.uint_of_string count)
  | _ => None
  end.

(** ** Licence stripping *)

Module RegExp.

(** The fragment of the pattern language [licenseRegex] is written in. *)
Inductive regex : Type :=
| Lit (s : string)            (* the characters of [s], one after the other *)
| Dot                         (* [.]: any character but a line terminator *)
| Digits                      (* [\d+] *)
| Seq (r1 r2 : regex)
| Alt (r1 r2 : regex)         (* [r1|r2] *)
| Opt (r : regex).            (* [(r)?] *)

Definition is_digit (c : ascii) : bool :=
  let n := nat_of_ascii c in Nat.leb 48 n && Nat.leb n 57.

Definition is_line_terminator (c : ascii) : bool :=
  Ascii.eqb c JS.LF || Ascii.eqb c JS.CR.

Fixpoint match_lit (p : list ascii) (s : list ascii) : option (list ascii) :=
  match p, s with
  | [], _ => Some s
  | a :: p', b :: s' => if Ascii.eqb a b then match_lit p' s' else None
  | _ :: _, [] => None
  end.

(** Backtracking match with a continuation [k] for the rest of the pattern;
    the result is the input left after the whole match. *)
Fixpoint match_digits (s : list ascii) (k : list ascii -> option (list ascii))
  : option (list ascii) :=
  match s with
  | c :: s' =>
      if is_digit c then
        match match_digits s' k with
        | Some r => Some r
        | None => k s'
        end
      else None
  | [] => None
  end.

Fixpoint run (r : regex) (s : list ascii) (k : list ascii -> option (list ascii))
  : option (list ascii) :=
  match r with
  | Lit p =>
      match match_lit (JS.chars p) s with
      | Some s' => k s'
      | None => None
      end
  | Dot =>
      match s with
      | c :: s' => if is_line_terminator c then None else k s'
      | [] => None
      end
  | Digits => match_digits s k
  | Seq r1 r2 => run r1 s (fun s' => run r2 s' k)
  | Alt r1 r2 =>
      match run r1 s k with
      | Some x => Some x
      | None => run r2 s k
      end
  | Opt r1 =>
      match run r1 s k with
      | Some x => Some x
      | None => k s
      end
  end.

(** A match starting at the head of [s]: the number of characters matched. *)
Definition match_at (r : regex) (s : list ascii) : option nat :=
  match run r s Some with
  | Some rest => Some (List.length s - List.length rest)
  | None => None
  end.

(** [s.replace(new RegExp(r, 'g'), replacement)] for a replacement without
    dollar signs.  [skip] counts the characters of the current match still
    to drop. *)
Fixpoint replace_from (r : regex) (replacement : list ascii) (skip : nat)
    (s : list ascii) : list ascii :=
  match s with
  | [] =>
      match skip, match_at r [] with
      | 0, Some _ => replacement
      | _, _ => []
      end
  | c :: rest =>
      match skip with
      | S n => replace_from r replacement n rest
      | 0 =>
          match match_at r s with
          | Some 0 => (replacement ++ c :: replace_from r replacement 0 rest)%list
          | Some (S n) => (replacement ++ replace_from r replacement n rest)%list
          | None => c :: replace_from r replacement 0 rest
          end
      end
  end.

Definition replace_global (r : regex) (replacement : string) (s : string) : string :=
  JS.str (replace_from r (JS.chars replacement) 0 (JS.chars s)).

(** The input cut the way the global replacement reads it: characters it
    keeps, and matches it replaces. *)
Inductive piece : Type :=
| Kept (c : ascii)
| Matched (text : list ascii).

Fixpoint pieces_from (r : regex) (skip : nat) (s : list ascii) : list piece :=
  match s with
  | [] =>
      match skip, match_at r [] with
      | 0, Some _ => [Matched []]
      | _, _ => []
      end
  | c :: rest =>
      match skip with
      | S n => pieces_from r n rest
      | 0 =>
          match match_at r s with
          | Some 0 => Matched [] :: Kept c :: pieces_from r 0 rest
          | Some (S n) => Matched (firstn (S n) s) :: pieces_from r n rest
          | None => Kept c :: pieces_from r 0 rest
          end
      end
  end.

Definition source_of (p : piece) : list ascii :=
  match p with
  | Kept c => [c]
  | Matched text => text
  end.

Definition replaced_by (replacement : list ascii) (p : piece) : list ascii :=
  match p with
  | Kept c => [c]
  | Matched _ => replacement
  end.

Definition matched_texts (ps : list piece) : list string :=
  flat_map (fun p => match p with Matched text => [JS.str text] | Kept _ => [] end) ps.

End RegExp.

Import RegExp.

(** [licenseRegex], line by line as the template literal has it. *)
Definition licenseRegex : regex :=
  Seq (Lit ("/**" ++ JS.nl))
  (Seq (Lit (" * @license" ++ JS.nl))
  (Seq (Lit " * ")
  (Seq (Seq (Lit "Copyright ")
       (Seq Digits
       (Seq (Lit " ")
            (Alt (Lit "Google LLC") (Lit "Massachusetts Institute of Technology")))))
  (Seq (Lit JS.nl)
  (Seq (Opt (Seq (Lit " * All rights reserved") (Seq Dot (Lit JS.nl))))
  (Seq (Lit " * SPDX-License-Identifier: Apache-2")
  (Seq Dot
  (Seq (Lit ("0" ++ JS.nl))
       (Lit " */"))))))))).

(** The transform [stripApacheLicense()] applies to the text of a file:
    [gulp.replace(new RegExp(licenseRegex, 'g'), '\n\n\n\n')]. *)
Definition stripApacheLicense (contents : string) : string :=
  replace_global licenseRegex (JS.nl ++ JS.nl ++ JS.nl ++ JS.nl) contents.

(** The blocks of [contents] the transform replaces, in order. *)
Definition licenseBlocks (contents : string) : list string :=
  matched_texts (pieces_from licenseRegex 0 (JS.chars contents)).

(** Lines of a text: one more than its line feeds. *)
Definition line_feeds (l : list ascii) : nat :=
  List.length (filter (Ascii.eqb JS.LF) l).
Definition lineFeeds (s : string) : nat := line_feeds (JS.chars s).
Definition lineCount (s : string) : nat := S (lineFeeds s).

(** The least and the greatest number of line feeds in a match of a
    pattern. *)
Fixpoint line_feed_bounds (r : regex) : nat * nat :=
  match r with
  | Lit p => (lineFeeds p, lineFeeds p)
  | Dot => (0, 0)
  | Digits => (0, 0)
  | Seq r1 r2 =>
      (fst (line_feed_bounds r1) + fst (line_feed_bounds r2),
       snd (line_feed_bounds r1) + snd (line_feed_bounds r2))
  | Alt r1 r2 =>
      (Nat.min (fst (line_feed_bounds r1)) (fst (line_feed_bounds r2)),
       Nat.max (snd (line_feed_bounds r1)) (snd (line_feed_bounds r2)))
  | Opt r1 => (0, snd (line_feed_bounds r1))
  end.

(** The blocks that span six lines: those with the optional line. *)
Definition longBlocks (contents : string) : list string :=
  filter (fun block => Nat.eqb (lineFeeds block) 5) (licenseBlocks contents).

(** ** Tasks that touch the file system *)

(** A thrown value or a rejection reason: a string, or an [Error] with its
    [code] ([ENOENT], [EACCES], ...). *)
Inductive JSValue : Type :=
| VString (s : string)
| VError (code : string).

(** How a statement or a call completes. *)
Inductive Completion (A : Type) : Type :=
| Normal (v : A)
| Throw (e : JSValue).
Arguments Normal {A} v.
Arguments Throw {A} e.

(** A settled promise. *)
Inductive Promise : Type :=
| Fulfilled
| Rejected (reason : JSValue).

(** The calls into the file system the tasks can make. *)
Inductive FsCall : Type :=
| CallUnlinkSync (path : string)
| CallRimraf (path : string).

(** What [gulp.src(srcs).pipe(...)....pipe(gulp.dest(dest))] is built from. *)
Record Pipeline : Type := {
  srcs : list string;
  compileOptions : list (string * string);
  dest : string
}.

Section Tasks.

(** The state of the machine the script runs on, and what the two library
    functions do to it. *)
Variable World : Type.
Variable os_unlink : string -> World -> Completion unit * World.
Variable os_rimraf : string -> World -> Promise * World.

(** From [./config]. *)
Variable BUILD_DIR : string.
Variable TSC_OUTPUT_DIR : string.

(** The world together with the file-system calls made so far. *)
Record State : Type := { world : World; calls : list FsCall }.

Definition Task (A : Type) : Type := State -> Completion A * State.

Definition ret {A} (v : A) : Task A := fun st => (Normal v, st).

Definition bind {A B} (m : Task A) (f : A -> Task B) : Task B :=
  fun st =>
    match m st with
    | (Normal v, st') => f v st'
    | (Throw e, st') => (Throw e, st')
    end.

(** [try { body } catch (e) { handler }]. *)
Definition try_catch {A} (body : Task A) (handler : JSValue -> Task A) : Task A :=
  fun st =>
    match body st with
    | (Normal v, st') => (Normal v, st')
    | (Throw e, st') => handler e st'
    end.

Definition fs_unlinkSync (path : string) : Task unit :=
  fun st =>
    let '(r, w) := os_unlink path (world st) in
    (r, {| world := w; calls := JS.push (calls st) (CallUnlinkSync path) |}).

Definition rimraf (path : string) : Task Promise :=
  fun st =>
    let '(p, w) := os_rimraf path (world st) in
    (Normal p, {| world := w; calls := JS.push (calls st) (CallRimraf path) |}).

Definition buildAdvancedCompilationTest : Task Pipeline :=
  bind
    (try_catch
       (fs_unlinkSync "./tests/compile/main_compressed.js")
       (fun _e => ret tt))
    (fun _ =>
       let srcs :=
         [ TSC_OUTPUT_DIR ++ "/**/*.js";
           "tests/compile/main.js";
           "tests/compile/test_blocks.js" ] in
       let options :=
         [ ("dependency_mode", "PRUNE");
           ("compilation_level", "ADVANCED_OPTIMIZATIONS");
           ("entry_point", "./tests/compile/main.js");
           ("js_output_file", "main_compressed.js") ] in
       ret {| srcs := srcs; compileOptions := options; dest := "./tests/compile/" |}).

Definition cleanBuildDir : Task Promise :=
  if String.eqb BUILD_DIR "." || String.eqb BUILD_DIR "/" then
    ret (Rejected (VString ("Refusing to rm -rf " ++ BUILD_DIR)))
  else rimraf BUILD_DIR.

End Tasks.

Arguments world {World} s.
Arguments calls {World} s.
Arguments Build_State {World} world calls.

(** ** The rest of the script *)

(** *** Parents (the two assignments after the [chunks] literal)

    [chunks[0].parent = null] throws on an empty array: [None]. *)
Definition assignParents (literals : list Chunk) : option (list Chunk) :=
  match literals with
  | [] => None
  | c0 :: others =>
      let root := set_parent None c0 in
      Some (root :: map (set_parent (Some root)) others)
  end.

(** A flat list cut into consecutive runs of the given lengths: how the
    reader of [{chunk, js}] tells the chunks' files apart. *)
Fixpoint takeChunks {A : Type} (counts : list nat) (l : list A) : list (list A) :=
  match counts with
  | [] => []
  | n :: rest => firstn n l :: takeChunks rest (skipn n l)
  end.

(** *** Compiler options *)

(** The values of an options object. *)
Inductive OptionValue : Type :=
| OString (s : string)
| OBoolean (b : bool)
| OArray (l : list string).

(** An options object: its properties in creation order, keys distinct. *)
Definition Options : Type := list (string * OptionValue).

Fixpoint obj_get {V : Type} (obj : list (string * V)) (key : string) : option V :=
  match obj with
  | [] => None
  | (k, v) :: rest => if String.eqb k key then Some v else obj_get rest key
  end.

(** [obj[key] = v]: the property keeps its place when it exists and is
    added last when it does not. *)
Fixpoint obj_set {V : Type} (key : string) (v : V) (obj : list (string * V))
  : list (string * V) :=
  match obj with
  | [] => [(key, v)]
  | (k, v0) :: rest =>
      if String.eqb k key then (k, v) :: rest else (k, v0) :: obj_set key v rest
  end.

(** [{...target, ...src}], one property of [src] after the other. *)
Definition spread {V : Type} (src target : list (string * V)) : list (string * V) :=
  fold_left (fun t kv => obj_set (fst kv) (snd kv) t) src target.

Definition JSCOMP_ERROR : list string :=
  [ "checkRegExp"; "checkVars"; "conformanceViolations"; "const";
    "constantProperty"; "duplicateMessage"; "es5Strict"; "externsValidation";
    "extraRequire"; "functionParams"; "invalidCasts"; "misplacedTypeAnnotation";
    "missingPolyfill"; "missingProvide"; "missingRequire"; "missingReturn";
    "moduleLoad"; "msgDescriptions"; "strictModuleChecks"; "strictModuleDepCheck";
    "suspiciousCode"; "typeInvalidation"; "undefinedVars"; "underscore";
    "unknownDefines"; "unusedPrivateMembers"; "uselessCode";
    "untranspilableFeatures" ].

Definition JSCOMP_WARNING : list string := [ "deprecated"; "deprecatedAnnotations" ].

Definition JSCOMP_OFF : list string :=
  [ "checkTypes"; "nonStandardJsDocs"; "unusedLocalVariables"; "visibility" ].

(** The flags of the command line [compile] looks at, as truth values. *)
Record Argv : Type := { verbose : bool; debug : bool; strict : bool }.

(** [defaultOptions] as it stands when [compile] reads it. *)
Definition defaultOptions (argv : Argv) : Options :=
  let defaultOptions :=
    [ ("compilation_level", OString "SIMPLE_OPTIMIZATIONS");
      ("warning_level", OString (if verbose argv then "VERBOSE" else "DEFAULT"));
      ("language_in", OString "ECMASCRIPT_2020");
      ("language_out", OString "ECMASCRIPT_2015");
      ("jscomp_off", OArray JSCOMP_OFF);
      ("rewrite_polyfills", OBoolean true);
      ("hide_warnings_for", OArray [ "node_modules" ]);
      ("define", OArray [ "COMPILED=true" ]) ] in
  if debug argv || strict argv then
    let defaultOptions := obj_set "jscomp_error" (OArray JSCOMP_ERROR) defaultOptions in
    let defaultOptions := obj_set "jscomp_warning" (OArray JSCOMP_WARNING) defaultOptions in
    if strict argv then
      match obj_get defaultOptions "jscomp_error" with
      | Some (OArray groups) =>
          obj_set "jscomp_error" (OArray (JS.push groups "strictCheckTypes"))
            defaultOptions
      | _ => defaultOptions
      end
    else defaultOptions
  else defaultOptions.

(** The two arguments [compile] hands to the compiler plugin. *)
Record CompilerCall : Type := {
  compilerOptions : Options;
  platform : list string
}.

Definition compile (argv : Argv) (options : Options) : CompilerCall :=
  {| compilerOptions := spread options (spread (defaultOptions argv) []);
     platform := [ "native"; "java"; "javascript" ] |}.

(** What [buildCompiled] sets up: the input of [gulp.src], the compiler
    call, the suffix of [gulp.rename] and the directory of [gulp.dest]. *)
Record CompiledBuild : Type := {
  sources : list string;
  compilerCall : CompilerCall;
  renameSuffix : string;
  destDir : string
}.

Section BuildCompiled.

Variable TSC_OUTPUT_DIR_POSIX : string.
Variable RELEASE_DIR : string.
Variable globSync : string -> string -> list string.
(** [getPackageJson().version]. *)
Variable version : string.
Variable argv : Argv.

(** The [options] object of [buildCompiled]; [chunks] is not empty, so
    [chunks[0]] is its head. *)
Definition buildCompiledOptions (chunkOptions : ChunkOptions) : Options :=
  [ ("define",
     OString ("VERSION$$"
                ++ match chunks with
                   | c0 :: _ => modulePath TSC_OUTPUT_DIR_POSIX c0
                   | [] => EmptyString
                   end
                ++ "='" ++ version ++ "'"));
    ("chunk", OArray (chunk chunkOptions));
    ("chunk_wrapper", OArray (chunk_wrapper chunkOptions));
    ("rename_prefix_namespace", OString NAMESPACE_VARIABLE) ].

Definition buildCompiled : CompiledBuild :=
  let chunkOptions := getChunkOptions TSC_OUTPUT_DIR_POSIX globSync chunks in
  let options := buildCompiledOptions chunkOptions in
  {| sources := js chunkOptions;
     compilerCall := compile argv options;
     renameSuffix := COMPILED_SUFFIX;
     destDir := RELEASE_DIR |}.

End BuildCompiled.

(** *** Language files *)

(** [s.endsWith(suffix)]. *)
Definition endsWith (s suffix : string) : bool :=
  let n := String.length s in
  let m := String.length suffix in
  if Nat.leb m n then String.eqb (substring (n - m) m s) suffix else false.

(** The end of the input, for a pattern that closes with a dollar sign. *)
Definition at_end (rest : list ascii) : option (list ascii) :=
  match rest with
  | [] => Some []
  | _ :: _ => None
  end.

(** [new RegExp(r + '$').test(s)]: a match that starts somewhere in [s] and
    reaches its end. *)
Fixpoint test_to_end (r : regex) (s : list ascii) : bool :=
  match run r s at_end with
  | Some _ => true
  | None =>
      match s with
      | [] => false
      | _ :: rest => test_to_end r rest
      end
  end.

(** [(keys|synonyms|qqq|constants)\.json], the pattern before the dollar
    sign. *)
Definition notLanguageRegex : regex :=
  Seq (Alt (Lit "keys") (Alt (Lit "synonyms") (Alt (Lit "qqq") (Lit "constants"))))
      (Lit ".json").

(** The [filter] of [buildLangfiles] on the listing of [msg/json]. *)
Definition languageFiles (json_files : list string) : list string :=
  filter
    (fun file =>
       endsWith file "json" && negb (test_to_end notLanguageRegex (JS.chars file)))
    json_files.

(** *** [buildJavaScript] *)

(** What a build task does that can be seen from outside: it runs a
    command, or calls back [done]. *)
Inductive BuildEvent : Type :=
| Exec (command : string)
| Done.

Section ExecTasks.

Variable World : Type.
(** [execSync(command, {stdio: 'inherit'})] returns, or throws when the
    command fails. *)
Variable os_exec : string -> World -> Completion unit * World.
Variable TSC_OUTPUT_DIR : string.
Variable TYPINGS_BUILD_DIR : string.

Definition ExecTask (A : Type) : Type :=
  World * list BuildEvent -> Completion A * (World * list BuildEvent).

Definition exec_bind {A B} (m : ExecTask A) (f : A -> ExecTask B) : ExecTask B :=
  fun st =>
    match m st with
    | (Normal v, st') => f v st'
    | (Throw e, st') => (Throw e, st')
    end.

Definition execSync (command : string) : ExecTask unit :=
  fun st =>
    let '(r, w) := os_exec command (fst st) in
    (r, (w, JS.push (snd st) (Exec command))).

Definition done : ExecTask unit :=
  fun st => (Normal tt, (fst st, JS.push (snd st) Done)).

Definition quoted (s : string) : string :=
  String JS.dquote s ++ String JS.dquote EmptyString.

Definition tscCommand : string :=
  "tsc -outDir " ++ quoted TSC_OUTPUT_DIR
    ++ " -declarationDir " ++ quoted TYPINGS_BUILD_DIR.

Definition tsickCommand : string :=
  "node scripts/tsick.js " ++ quoted TSC_OUTPUT_DIR.

Definition buildJavaScript : ExecTask unit :=
  exec_bind (execSync tscCommand) (fun _ =>
  exec_bind (execSync tsickCommand) (fun _ =>
  done)).

End ExecTasks.

(** ** Inputs used in the examples below *)

(** The end-to-end scenario: a root chunk and one child. *)
Definition scenarioRoot : Chunk :=
  mkChunk "root" (Glob "root/**/*.js") "root/a.js" "R" None None.
Definition scenarioChild : Chunk :=
  mkChunk "child" (GlobArray ["child/c.js"; "child/d.js"]) "child/c.js" "R.Child"
    None (Some scenarioRoot).
Definition scenarioGlob (glob cwd : string) : list string :=
  if String.eqb glob "root/**/*.js" then ["root/a.js"; "root/b.js"; "root/sub/e.js"]
  else [glob].

(** No colon in a chunk name: the descriptor's fields can be told apart. *)
Definition no_colon (s : string) : bool :=
  forallb (fun c => negb (Ascii.eqb c ":")) (JS.chars s).

(** *** The parts of a wrapper

    The text of a wrapper, cut where the template literal changes branch:
    the fixed head, the AMD branch, the CommonJS branch, the plain-script
    branch with its statements, and the factory function. *)

Definition loaderHead : string :=
  template
    [ "// Do not edit this file; automatically generated.";
      EmptyString;
      "/* eslint-disable */";
      ";(function(root, factory) {";
      "  if (typeof define === 'function' && define.amd) { // AMD" ].

Definition amdBranch (deps : string) : string :=
  template [ "    define([" ++ deps ++ "], factory);" ].

Definition cjsBranch (deps : string) : string :=
  template
    [ "  } else if (typeof exports === 'object') { // Node.js";
      "    module.exports = factory(" ++ deps ++ ");" ].

Definition indent (stmt : string) : string := "    " ++ stmt.

Definition scriptBranch (statements : list string) : string :=
  template ("  } else { // Script" :: map indent statements ++ [ "  }" ])%list.

Definition factoryFunction (args init module : string) : string :=
  template
    [ "}(this, function(" ++ args ++ ") {";
      "var $=" ++ init ++ ";";
      "%output%";
      module ++ ".__namespace__=$;";
      "return " ++ module ++ ";";
      "}));" ].

(** The file a chunk's wrapper depends on, as a string literal. *)
Definition parentFile (p : Chunk) : string :=
  JS.JSON_stringify ("./" ++ name p ++ "_compressed.js").

(** The first two chunks of [chunks]. *)
Definition blocklyChunk : Chunk :=
  mkChunk "blockly" (Glob "core/**/*.js") "core/blockly.js" "Blockly" None None.
Definition blocksChunk : Chunk :=
  mkChunk "blocks" (Glob "blocks/**/*.js") "blocks/blocks.js" "Blockly.libraryBlocks"
    None
    (Some blocklyChunk).

(** A chunk like [blocksChunk] with another entry point, and one whose
    parent has the same name under another export. *)
Definition blocksChunk_otherEntry : Chunk :=
  mkChunk "blocks" (Glob "blocks/**/*.js") "blocks/all.js" "Blockly.libraryBlocks"
    None
    (Some blocklyChunk).
Definition blocksChunk_otherParentExport : Chunk :=
  mkChunk "blocks" (Glob "blocks/**/*.js") "blocks/blocks.js" "Blockly.libraryBlocks"
    None
    (Some (mkChunk "blockly" (Glob "core/**/*.js") "core/blockly.js" "B"
             None None)).

(** A chunk like [blocksChunk] in the fields the wrapper reads, with other
    globs and a parent with another entry point and globs. *)
Definition blocksChunk_otherFiles : Chunk :=
  mkChunk "blocks" (GlobArray ["blocks/a.js"; "blocks/b.js"]) "blocks/blocks.js"
    "Blockly.libraryBlocks" None
    (Some (mkChunk "blockly" (Glob "**/*.js") "core/main.js" "Blockly"
             (Some [("B", "b")]) None)).

(** *** Reading a string literal back

    The string a JSON string literal denotes ([JSON.parse] on the literal):
    [None] when the text is not one literal. *)

Definition hex_value (c : ascii) : option nat :=
  let n := nat_of_ascii c in
  if Nat.leb 48 n && Nat.leb n 57 then Some (n - 48)
  else if Nat.leb 97 n && Nat.leb n 102 then Some (n - 87)
  else if Nat.leb 65 n && Nat.leb n 70 then Some (n - 55)
  else None.

Definition simple_escape (c : ascii) : option ascii :=
  let n := nat_of_ascii c in
  if Nat.eqb n 98 then Some (ascii_of_nat 8)
  else if Nat.eqb n 116 then Some (ascii_of_nat 9)
  else if Nat.eqb n 110 then Some (ascii_of_nat 10)
  else if Nat.eqb n 102 then Some (ascii_of_nat 12)
  else if Nat.eqb n 114 then Some (ascii_of_nat 13)
  else if Nat.eqb n 34 || Nat.eqb n 92 || Nat.eqb n 47 then Some c
  else None.

Fixpoint unquote (l : list ascii) : option (list ascii) :=
  match l with
  | [] => None
  | c :: rest =>
      if Ascii.eqb c JS.dquote then
        match rest with
        | [] => Some []
        | _ :: _ => None
        end
      else if Ascii.eqb c JS.backslash then
        match rest with
        | e :: rest1 =>
            if Ascii.eqb e "u" then
              match rest1 with
              | h1 :: h2 :: h3 :: h4 :: rest2 =>
                  match hex_value h1, hex_value h2, hex_value h3, hex_value h4 with
                  | Some 0, Some 0, Some a, Some b =>
                      option_map (cons (ascii_of_nat (16 * a + b))) (unquote rest2)
                  | _, _, _, _ => None
                  end
              | _ => None
              end
            else
              match simple_escape e with
              | Some ch => option_map (cons ch) (unquote rest1)
              | None => None
              end
        | [] => None
        end
      else if Nat.ltb (nat_of_ascii c) 32 then None
      else option_map (cons c) (unquote rest)
  end.

Definition JSON_parse_string (text : string) : option string :=
  match JS.chars text with
  | q :: body => if Ascii.eqb q JS.dquote then option_map JS.str (unquote body) else None
  | [] => None
  end.

(** The MIT header, the one with the [All rights reserved.] line, and a
    source file that starts with it. *)
Definition mitHeader : string :=
  "/**" ++ JS.nl ++
  " * @license" ++ JS.nl ++
  " * Copyright 2012 Massachusetts Institute of Technology" ++ JS.nl ++
  " * All rights reserved." ++ JS.nl ++
  " * SPDX-License-Identifier: Apache-2.0" ++ JS.nl ++
  " */".
Definition mitLicensedSource : string := mitHeader ++ JS.nl ++ "foo();".

(** The Google header and a source file that starts with it. *)
Definition googleHeader : string :=
  "/**" ++ JS.nl ++
  " * @license" ++ JS.nl ++
  " * Copyright 2018 Google LLC" ++ JS.nl ++
  " * SPDX-License-Identifier: Apache-2.0" ++ JS.nl ++
  " */".
Definition googleLicensedSource : string := googleHeader ++ JS.nl ++ "foo();".

(** A chunk whose entry point none of its globs matches. *)
Definition misconfiguredChunk : Chunk :=
  mkChunk "blockly" (Glob "core/**/*.js") "core/main.js" "Blockly" None None.
Definition coreGlob (glob cwd : string) : list string :=
  if String.eqb glob "core/**/*.js" then ["core/blockly.js"; "core/block.js"] else [].

(** [chunk] with another entry point. *)
Definition set_entry (e : string) (c : Chunk) : Chunk :=
  mkChunk (name c) (files c) e (scriptExport c) (scriptNamedExports c) (parent c).

(** A machine on which deleting any file is refused. *)
Definition deniedUnlink (path : string) (w : unit) : Completion unit * unit :=
  (Throw (VError "EACCES"), w).
(** A machine on which the file to delete is missing. *)
Definition missingUnlink (path : string) (w : unit) : Completion unit * unit :=
  (Throw (VError "ENOENT"), w).
Definition quietRimraf (path : string) (w : unit) : Promise * unit := (Fulfilled, w).
Definition startState : State unit := {| world := tt; calls := [] |}.

(** A chunk with two named exports. *)
Definition twoExportsChunk : Chunk :=
  mkChunk "javascript" (Glob "generators/javascript.js") "generators/javascript.js"
    "javascript"
    (Some [("Blockly.JavaScript", "javascriptGenerator"); ("Blockly.JS", "Order")])
    (Some blocklyChunk).

(** *** Licence headers

    The words a pattern matches. *)
Fixpoint lang (r : regex) (m : list ascii) : Prop :=
  match r with
  | Lit p => m = JS.chars p
  | Dot => exists c, m = [c] /\ is_line_terminator c = false
  | Digits => m <> [] /\ forallb is_digit m = true
  | Seq r1 r2 => exists m1 m2, m = (m1 ++ m2)%list /\ lang r1 m1 /\ lang r2 m2
  | Alt r1 r2 => lang r1 m \/ lang r2 m
  | Opt r1 => m = [] \/ lang r1 m
  end.

(** A licence header: the year, the owner, the character that stands where
    the pattern has a dot after [All rights reserved] when that line is
    there, and the one between [2] and [0]. *)
Definition licenseHeader (year owner : string) (reserved : option ascii) (minor : ascii)
  : string :=
  ("/**" ++ JS.nl) ++ (" * @license" ++ JS.nl) ++ " * "
    ++ ("Copyright " ++ year ++ " " ++ owner) ++ JS.nl
    ++ match reserved with
       | Some c => " * All rights reserved" ++ String c JS.nl
       | None => EmptyString
       end
    ++ " * SPDX-License-Identifier: Apache-2" ++ String minor ("0" ++ JS.nl) ++ " */".

Definition wellFormedHeader (year owner : string) (reserved : option ascii)
    (minor : ascii) : Prop :=
  year <> EmptyString
  /\ forallb is_digit (JS.chars year) = true
  /\ (owner = "Google LLC" \/ owner = "Massachusetts Institute of Technology")
  /\ match reserved with
     | Some c => is_line_terminator c = false
     | None => True
     end
  /\ is_line_terminator minor = false.

Definition isLicenseHeader (block : string) : Prop :=
  exists year owner reserved minor,
    block = licenseHeader year owner reserved minor
    /\ wellFormedHeader year owner reserved minor.

Definition fourLineFeeds : string := JS.nl ++ JS.nl ++ JS.nl ++ JS.nl.

(** A [name:text] entry cut at its first colon. *)
Fixpoint splitAtColon (entry : string) : option (string * string) :=
  match entry with
  | EmptyString => None
  | String c rest =>
      if Ascii.eqb c ":" then Some (EmptyString, rest)
      else option_map (fun p => (String c (fst p), snd p)) (splitAtColon rest)
  end.

(** The names in a chunk and its parent hold no colon. *)
Definition plain_names (c : Chunk) : bool :=
  no_colon (name c)
  && match parent c with
     | Some p => no_colon (name p)
     | None => true
     end.

(** * Properties *)

(** ** The definitions at work *)

Example posix_join_entry :
  Path.posix_join "build/src" "core/blockly.js" = "build/src/core/blockly.js"
  /\ Path.posix_join "build/src/" "./generators//lua.js" = "build/src/generators/lua.js"
  /\ Path.posix_join "build/src" "../core/blockly.js" = "build/core/blockly.js".
Proof. repeat split. Qed.

Example modulePath_chunks :
  map (modulePath "build/src") chunks
  = [ "module$build$src$core$blockly";
      "module$build$src$blocks$blocks";
      "module$build$src$generators$javascript";
      "module$build$src$generators$python";
      "module$build$src$generators$php";
      "module$build$src$generators$lua";
      "module$build$src$generators$dart" ].
Proof. reflexivity. Qed.

Example JSON_stringify_escapes :
  JS.chars (JS.JSON_stringify ("a" ++ JS.nl ++ "b"))
  = [JS.dquote; "a"; JS.backslash; "n"; "b"; JS.dquote]%char.
Proof. reflexivity. Qed.

Example chunkWrapper_blockly :
  chunkWrapper "build/src" blocklyChunk
  = template
      [ "// Do not edit this file; automatically generated.";
        EmptyString;
        "/* eslint-disable */";
        ";(function(root, factory) {";
        "  if (typeof define === 'function' && define.amd) { // AMD";
        "    define([], factory);";
        "  } else if (typeof exports === 'object') { // Node.js";
        "    module.exports = factory();";
        "  } else { // Script";
        "    root.Blockly = factory();";
        "  }";
        "}(this, function() {";
        "var $={};";
        "%output%";
        "module$build$src$core$blockly.__namespace__=$;";
        "return module$build$src$core$blockly;";
        "}));" ].
Proof. reflexivity. Qed.

Example scriptExportStatements_javascript :
  option_map scriptExportStatements (nth_error chunks 2)
  = Some [ "root.javascript = factory(root.Blockly);";
           "root.Blockly.JavaScript = root.javascript.javascriptGenerator;" ].
Proof. reflexivity. Qed.

(** ** Strings *)

Lemma append_assoc (a b c : string) : (a ++ b) ++ c = a ++ (b ++ c).
Proof. induction a as [|x a IH]; simpl; [reflexivity | now rewrite IH]. Qed.

Lemma append_nil_r (a : string) : a ++ EmptyString = a.
Proof. induction a as [|x a IH]; simpl; [reflexivity | now rewrite IH]. Qed.

Lemma split_go_no_sep sep cur s :
  forallb (fun c => negb (Ascii.eqb c sep)) (JS.chars s) = true ->
  JS.split_go sep cur s = [cur ++ s].
Proof.
  revert cur; induction s as [|x s IH]; intros cur H; simpl in *.
  - now rewrite append_nil_r.
  - apply andb_true_iff in H as [Hx Hs].
    apply negb_true_iff in Hx. rewrite Hx, IH by assumption.
    now rewrite append_assoc.
Qed.

Lemma split_go_sep sep cur s t :
  forallb (fun c => negb (Ascii.eqb c sep)) (JS.chars s) = true ->
  JS.split_go sep cur (s ++ String sep t) = (cur ++ s) :: JS.split_go sep EmptyString t.
Proof.
  revert cur; induction s as [|x s IH]; intros cur H; simpl in *.
  - now rewrite Ascii.eqb_refl, append_nil_r.
  - apply andb_true_iff in H as [Hx Hs].
    apply negb_true_iff in Hx. rewrite Hx, IH by assumption.
    now rewrite append_assoc.
Qed.

Lemma string_of_uint_no_colon d : no_colon (NilEmpty.string_of_uint d) = true.
Proof. unfold no_colon; induction d; simpl; auto. Qed.

Lemma recordedCount_chunkOption c n :
  no_colon (name c) = true -> recordedCount (chunkOption c n) = Some n.
Proof.
  intros Hname. unfold recordedCount, chunkOption, JS.split.
  rewrite !append_assoc. change (":" ++ ?x) with (String ":" x).
  rewrite split_go_sep by exact Hname. simpl "++".
  destruct (parent c) as [p|].
  - change (":" ++ ?x) with (String ":" x).
    rewrite split_go_sep by apply string_of_uint_no_colon.
    simpl. unfold JS.of_nat. rewrite NilEmpty.usu. simpl. now rewrite Unsigned.of_to.
  - rewrite append_nil_r, split_go_no_sep by apply string_of_uint_no_colon.
    simpl. unfold JS.of_nat. rewrite NilEmpty.usu. simpl. now rewrite Unsigned.of_to.
Qed.

(** ** Chunk resolution *)

Section ChunkResolutionFacts.

Variable TSC_OUTPUT_DIR_POSIX : string.
Variable globSync : string -> string -> list string.

Local Abbreviation resolved := (resolvedFiles TSC_OUTPUT_DIR_POSIX globSync).
Local Abbreviation descriptor :=
  (fun c : Chunk => chunkOption c (List.length (resolved c))).

Lemma fold_resolveChunk cs : forall chunkOptions allFiles,
  fold_left (resolveChunk TSC_OUTPUT_DIR_POSIX globSync) cs (chunkOptions, allFiles)
  = ((chunkOptions ++ map descriptor cs)%list,
     (allFiles ++ concat (map resolved cs))%list).
Proof.
  induction cs as [|c cs IH]; intros opts all; simpl.
  - now rewrite !app_nil_r.
  - unfold JS.push, JS.push_all. rewrite IH, <- !app_assoc. reflexivity.
Qed.

Lemma getChunkOptions_fields cs :
  getChunkOptions TSC_OUTPUT_DIR_POSIX globSync cs
  = {| chunk := map descriptor cs;
       js := concat (map resolved cs);
       chunk_wrapper :=
         map (fun c => name c ++ ":" ++ chunkWrapper TSC_OUTPUT_DIR_POSIX c) cs |}.
Proof. unfold getChunkOptions. now rewrite fold_resolveChunk. Qed.

(** C1: the descriptors of the manifest are [name:count[:parent]] with
    [count] the number of files resolved for the chunk, in declaration order;
    these counts add up to the length of the flat file list; the flat file
    list is the concatenation of the chunks' resolved file lists in
    declaration order; and when no chunk name holds a colon, the count can be
    read back from each descriptor string. *)
Theorem getChunkOptions_counts_and_order (cs : list Chunk) :
  let m := getChunkOptions TSC_OUTPUT_DIR_POSIX globSync cs in
  let counts := map (fun c => List.length (resolvedFiles TSC_OUTPUT_DIR_POSIX globSync c)) cs in
  chunk m = map (fun c => chunkOption c
                   (List.length (resolvedFiles TSC_OUTPUT_DIR_POSIX globSync c))) cs
  /\ list_sum counts = List.length (js m)
  /\ js m = concat (map (resolvedFiles TSC_OUTPUT_DIR_POSIX globSync) cs)
  /\ (forallb (fun c => no_colon (name c)) cs = true ->
      map recordedCount (chunk m) = map Some counts).
Proof.
  cbv zeta. rewrite getChunkOptions_fields; simpl.
  repeat split.
  - rewrite length_concat, map_map. reflexivity.
  - intros Hnames. rewrite !map_map. apply map_ext_in.
    intros c Hc. apply recordedCount_chunkOption.
    rewrite forallb_forall in Hnames. now apply Hnames.
Qed.

End ChunkResolutionFacts.

(** ** Wrappers *)

Lemma template_cons l ls : template (l :: ls) = l ++ JS.nl ++ template ls.
Proof.
  unfold template. destruct ls as [|l' ls]; simpl.
  - reflexivity.
  - now rewrite append_assoc.
Qed.

Lemma template_nil : template [] = EmptyString.
Proof. reflexivity. Qed.

Lemma template_app l1 l2 : template (l1 ++ l2)%list = template l1 ++ template l2.
Proof.
  induction l1 as [|l l1 IH]; [reflexivity|].
  change ((l :: l1) ++ l2)%list with (l :: (l1 ++ l2))%list.
  now rewrite !template_cons, IH, !append_assoc.
Qed.

Lemma join_indent stmt stmts :
  "    " ++ JS.join (JS.nl ++ "    ") (stmt :: stmts) ++ JS.nl
  = template (map indent (stmt :: stmts)).
Proof.
  revert stmt; induction stmts as [|s' stmts IH]; intros stmt.
  - reflexivity.
  - change (JS.join (JS.nl ++ "    ") (stmt :: s' :: stmts))
      with (stmt ++ (JS.nl ++ "    ") ++ JS.join (JS.nl ++ "    ") (s' :: stmts)).
    change (map indent (stmt :: s' :: stmts))
      with (("    " ++ stmt) :: map indent (s' :: stmts)).
    rewrite template_cons, <- IH, !append_assoc. reflexivity.
Qed.

Section WrapperFacts.

Variable TSC_OUTPUT_DIR_POSIX : string.

(** The statements of the plain-script branch: the primary assignment, then
    one assignment per key of [scriptNamedExports], in [for ... in] order. *)
Lemma scriptExportStatements_eq c :
  scriptExportStatements c
  = primaryExportStatement c
      :: map (namedExportStatement c) (for_in_keys (scriptNamedExports c)).
Proof.
  unfold scriptExportStatements.
  generalize (for_in_keys (scriptNamedExports c)) as keys.
  assert (H : forall keys acc,
             fold_left (fun stmts location =>
                          JS.push stmts (namedExportStatement c location)) keys acc
             = (acc ++ map (namedExportStatement c) keys)%list).
  { induction keys as [|k keys IH]; intros acc; simpl.
    - now rewrite app_nil_r.
    - unfold JS.push at 2. now rewrite IH, <- app_assoc. }
  intros keys. now rewrite H.
Qed.

(** A wrapper is its five parts, one after the other. *)
Lemma chunkWrapper_parts c :
  chunkWrapper TSC_OUTPUT_DIR_POSIX c
  = loaderHead
      ++ amdBranch (amdDepsExpr (wrapperVars c))
      ++ cjsBranch (cjsDepsExpr (wrapperVars c))
      ++ scriptBranch (scriptExportStatements c)
      ++ factoryFunction (factoryArgs (wrapperVars c)) (namespaceExpr (wrapperVars c))
           (modulePath TSC_OUTPUT_DIR_POSIX c).
Proof.
  unfold chunkWrapper, loaderHead, amdBranch, cjsBranch, scriptBranch, factoryFunction.
  cbv zeta.
  rewrite scriptExportStatements_eq.
  set (stmts := map (namedExportStatement c) _).
  change (("  } else { // Script"
             :: map indent (primaryExportStatement c :: stmts) ++ [ "  }" ])%list)
    with (["  } else { // Script"]
            ++ map indent (primaryExportStatement c :: stmts) ++ [ "  }" ])%list.
  rewrite !template_app, <- join_indent.
  repeat rewrite template_cons. rewrite !template_nil.
  unfold NAMESPACE_VARIABLE, NAMESPACE_PROPERTY.
  repeat rewrite append_assoc. simpl. rewrite ?append_nil_r.
  reflexivity.
Qed.

End WrapperFacts.

(** *** String literals *)

Lemma unquote_quote_char c tl :
  unquote (JS.quote_char c ++ tl)%list = option_map (cons c) (unquote tl).
Proof.
  destruct c as [[] [] [] [] [] [] [] []]; reflexivity.
Qed.

Lemma unquote_quoted cs :
  unquote (flat_map JS.quote_char cs ++ [JS.dquote])%list = Some cs.
Proof.
  induction cs as [|c cs IH]; [reflexivity|].
  simpl flat_map. rewrite <- app_assoc, unquote_quote_char, IH. reflexivity.
Qed.

(** [JSON.stringify] writes a literal that denotes the string it was given. *)
Lemma JSON_parse_stringify s : JSON_parse_string (JS.JSON_stringify s) = Some s.
Proof.
  unfold JSON_parse_string, JS.JSON_stringify, JS.str, JS.chars.
  rewrite list_ascii_of_string_of_list_ascii.
  change (Ascii.eqb JS.dquote JS.dquote) with true. cbv iota.
  rewrite unquote_quoted. simpl. now rewrite string_of_list_ascii_of_string.
Qed.

Lemma JSON_stringify_not_empty s : JS.JSON_stringify s <> EmptyString.
Proof. unfold JS.JSON_stringify, JS.str. simpl. discriminate. Qed.

Section WrapperClaims.

Variable TSC_OUTPUT_DIR_POSIX : string.

Local Abbreviation wrapper := (chunkWrapper TSC_OUTPUT_DIR_POSIX).
Local Abbreviation module := (modulePath TSC_OUTPUT_DIR_POSIX).

(** Of the parent, the wrapper's variables read the name and the
    [scriptExport]. *)
Lemma wrapperVars_reads c1 c2 :
  option_map name (parent c1) = option_map name (parent c2) ->
  option_map scriptExport (parent c1) = option_map scriptExport (parent c2) ->
  wrapperVars c1 = wrapperVars c2.
Proof.
  unfold wrapperVars. intros Hpn Hps.
  destruct (parent c1) as [p1|], (parent c2) as [p2|]; simpl in *;
    try discriminate; [|reflexivity].
  injection Hpn as Hpn. injection Hps as Hps. now rewrite Hpn, Hps.
Qed.

(** The module path reads the entry path. *)
Lemma modulePath_reads c1 c2 : entry c1 = entry c2 -> module c1 = module c2.
Proof. unfold modulePath. now intros ->. Qed.

Lemma scriptExportStatements_reads c1 c2 :
  scriptExport c1 = scriptExport c2 ->
  scriptNamedExports c1 = scriptNamedExports c2 ->
  wrapperVars c1 = wrapperVars c2 ->
  scriptExportStatements c1 = scriptExportStatements c2.
Proof.
  intros Hs Hn Hv. rewrite !scriptExportStatements_eq.
  unfold primaryExportStatement. rewrite Hs, Hn, Hv. f_equal.
  apply map_ext. intros location. unfold namedExportStatement. now rewrite Hs, Hn.
Qed.

(** C3, as amended: two chunks that agree on the name, the entry path, the
    [scriptExport], the [scriptNamedExports] and on their parents' name and
    [scriptExport] (or have no parent) get the same wrapper, byte for
    byte. *)
Theorem chunkWrapper_deterministic c1 c2 :
  name c1 = name c2 ->
  entry c1 = entry c2 ->
  scriptExport c1 = scriptExport c2 ->
  scriptNamedExports c1 = scriptNamedExports c2 ->
  option_map name (parent c1) = option_map name (parent c2) ->
  option_map scriptExport (parent c1) = option_map scriptExport (parent c2) ->
  chunkWrapper TSC_OUTPUT_DIR_POSIX c1 = chunkWrapper TSC_OUTPUT_DIR_POSIX c2.
Proof.
  intros _ He Hs Hn Hpn Hps.
  pose proof (wrapperVars_reads c1 c2 Hpn Hps) as Hv.
  pose proof (modulePath_reads c1 c2 He) as Hm.
  pose proof (scriptExportStatements_reads c1 c2 Hs Hn Hv) as Hstmts.
  rewrite !chunkWrapper_parts.
  now rewrite Hv, Hm, Hstmts.
Qed.

(** The wrapper reads neither [chunk.name] nor [chunk.files]. *)
Lemma chunkWrapper_ignores_name_and_files c n fs :
  wrapper (mkChunk n fs (entry c) (scriptExport c) (scriptNamedExports c) (parent c))
  = wrapper c.
Proof.
  rewrite !chunkWrapper_parts.
  set (c' := mkChunk n fs (entry c) (scriptExport c) (scriptNamedExports c) (parent c)).
  assert (Hv : wrapperVars c' = wrapperVars c) by now apply wrapperVars_reads.
  assert (Hm : module c' = module c) by now apply modulePath_reads.
  assert (Hstmts : scriptExportStatements c' = scriptExportStatements c)
    by now apply scriptExportStatements_reads.
  now rewrite Hv, Hm, Hstmts.
Qed.

(** C4: the factory function is the end of the wrapper.  Its first statement
    sets the namespace variable to a new empty object when the chunk has no
    parent and to [__parent__.__namespace__] when it has one; after the
    compiled output, the namespace variable is stored at [__namespace__] on
    the module object, and the statement after that returns the module
    object. *)
Theorem chunkWrapper_namespace c :
  exists loader,
    chunkWrapper TSC_OUTPUT_DIR_POSIX c
    = loader ++
      match parent c with
      | None =>
          template
            [ "}(this, function() {";
              "var $={};";
              "%output%";
              modulePath TSC_OUTPUT_DIR_POSIX c ++ ".__namespace__=$;";
              "return " ++ modulePath TSC_OUTPUT_DIR_POSIX c ++ ";";
              "}));" ]
      | Some _ =>
          template
            [ "}(this, function(__parent__) {";
              "var $=__parent__.__namespace__;";
              "%output%";
              modulePath TSC_OUTPUT_DIR_POSIX c ++ ".__namespace__=$;";
              "return " ++ modulePath TSC_OUTPUT_DIR_POSIX c ++ ";";
              "}));" ]
      end.
Proof.
  exists (loaderHead
            ++ amdBranch (amdDepsExpr (wrapperVars c))
            ++ cjsBranch (cjsDepsExpr (wrapperVars c))
            ++ scriptBranch (scriptExportStatements c)).
  rewrite chunkWrapper_parts, !append_assoc.
  unfold wrapperVars, factoryFunction. destruct (parent c); reflexivity.
Qed.

(** C5: after the fixed head of the wrapper come the AMD and the CommonJS
    branch.  With a parent [p] the AMD dependency list holds the string
    literal for [./<p.name>_compressed.js] and the CommonJS branch requires
    the same literal; with no parent the list and the argument of [factory]
    are empty.  The literal denotes that file name and is never empty. *)
Theorem chunkWrapper_parent_dependency c :
  (exists rest,
     chunkWrapper TSC_OUTPUT_DIR_POSIX c
     = loaderHead ++
       match parent c with
       | None =>
           template
             [ "    define([], factory);";
               "  } else if (typeof exports === 'object') { // Node.js";
               "    module.exports = factory();" ]
       | Some p =>
           template
             [ "    define([" ++ parentFile p ++ "], factory);";
               "  } else if (typeof exports === 'object') { // Node.js";
               "    module.exports = factory(require(" ++ parentFile p ++ "));" ]
       end ++ rest)
  /\ (amdDepsExpr (wrapperVars c) = EmptyString <-> parent c = None)
  /\ (cjsDepsExpr (wrapperVars c) = EmptyString <-> parent c = None)
  /\ (forall p,
        JSON_parse_string (parentFile p) = Some ("./" ++ name p ++ "_compressed.js")
        /\ parentFile p <> EmptyString).
Proof.
  split; [|split; [|split]].
  - exists (scriptBranch (scriptExportStatements c)
              ++ factoryFunction (factoryArgs (wrapperVars c))
                   (namespaceExpr (wrapperVars c)) (module c)).
    rewrite chunkWrapper_parts. unfold wrapperVars, parentFile.
    destruct (parent c) as [p|]; simpl amdDepsExpr; simpl cjsDepsExpr;
      unfold amdBranch, cjsBranch, COMPILED_SUFFIX;
      rewrite !template_cons, !template_nil, !append_assoc; simpl;
      rewrite ?append_assoc; reflexivity.
  - unfold wrapperVars. destruct (parent c) as [p|]; simpl; split; intros H;
      try reflexivity; discriminate.
  - unfold wrapperVars. destruct (parent c) as [p|]; simpl; split; intros H;
      try reflexivity; discriminate.
  - intros p. split.
    + apply JSON_parse_stringify.
    + apply JSON_stringify_not_empty.
Qed.

(** C10: for a chunk without [scriptNamedExports] the loop adds nothing, so
    the plain-script branch of the wrapper is the one statement that assigns
    the result of [factory] to [root.<scriptExport>]. *)
Theorem chunkWrapper_without_named_exports c :
  scriptNamedExports c = None ->
  scriptExportStatements c
  = [ "root." ++ scriptExport c ++ " = factory("
        ++ match parent c with
           | Some p => "root." ++ scriptExport p
           | None => EmptyString
           end ++ ");" ]
  /\ chunkWrapper TSC_OUTPUT_DIR_POSIX c
     = (loaderHead
          ++ amdBranch (amdDepsExpr (wrapperVars c))
          ++ cjsBranch (cjsDepsExpr (wrapperVars c)))
         ++ template
              [ "  } else { // Script";
                "    root." ++ scriptExport c ++ " = factory("
                  ++ match parent c with
                     | Some p => "root." ++ scriptExport p
                     | None => EmptyString
                     end ++ ");";
                "  }" ]
         ++ factoryFunction (factoryArgs (wrapperVars c))
              (namespaceExpr (wrapperVars c)) (modulePath TSC_OUTPUT_DIR_POSIX c).
Proof.
  intros Hnone.
  assert (Hs : scriptExportStatements c
               = [ "root." ++ scriptExport c ++ " = factory("
                     ++ match parent c with
                        | Some p => "root." ++ scriptExport p
                        | None => EmptyString
                        end ++ ");" ]).
  { rewrite scriptExportStatements_eq, Hnone. simpl.
    unfold primaryExportStatement, wrapperVars. destruct (parent c); reflexivity. }
  split; [exact Hs|].
  rewrite chunkWrapper_parts, Hs, !append_assoc. reflexivity.
Qed.

End WrapperClaims.

(** ** Licence stripping *)

Lemma line_feeds_app a b : line_feeds (a ++ b)%list = line_feeds a + line_feeds b.
Proof. unfold line_feeds. now rewrite filter_app, length_app. Qed.

Lemma line_feeds_cons c a :
  line_feeds (c :: a) = (if Ascii.eqb JS.LF c then 1 else 0) + line_feeds a.
Proof. unfold line_feeds. cbn [filter]. now destruct (Ascii.eqb JS.LF c). Qed.

Lemma line_feeds_nil : line_feeds [] = 0.
Proof. reflexivity. Qed.

Lemma match_lit_sound p : forall s s',
  match_lit p s = Some s' -> s = (p ++ s')%list.
Proof.
  induction p as [|a p IH]; intros s s' H; simpl in H.
  - now injection H as ->.
  - destruct s as [|b s]; [discriminate|].
    destruct (Ascii.eqb a b) eqn:Hab; [|discriminate].
    apply Ascii.eqb_eq in Hab as ->. simpl. f_equal. now apply IH.
Qed.

Lemma match_digits_sound s : forall k x,
  match_digits s k = Some x ->
  exists m s', s = (m ++ s')%list /\ k s' = Some x /\ line_feeds m = 0.
Proof.
  induction s as [|c s IH]; intros k x H; simpl in H; [discriminate|].
  destruct (is_digit c) eqn:Hc; [|discriminate].
  assert (Hlf : Ascii.eqb JS.LF c = false).
  { apply Ascii.eqb_neq. intros <-. discriminate Hc. }
  destruct (match_digits s k) as [r|] eqn:Hrec.
  - injection H as ->. destruct (IH k x Hrec) as (m & s' & -> & Hk & Hm).
    exists (c :: m), s'. repeat split; [exact Hk|].
    now rewrite line_feeds_cons, Hlf, Hm.
  - exists [c], s. repeat split; [exact H|].
    now rewrite line_feeds_cons, Hlf.
Qed.

(** A successful run consumed a prefix of the input whose number of line
    feeds is within the bounds of the pattern. *)
Lemma run_sound r : forall s k x,
  run r s k = Some x ->
  exists m s',
    s = (m ++ s')%list /\ k s' = Some x
    /\ fst (line_feed_bounds r) <= line_feeds m <= snd (line_feed_bounds r).
Proof.
  induction r as [p| | |r1 IH1 r2 IH2|r1 IH1 r2 IH2|r1 IH1]; intros s k x H; simpl in H.
  - destruct (match_lit (JS.chars p) s) as [s'|] eqn:Hp; [|discriminate].
    apply match_lit_sound in Hp. exists (JS.chars p), s'.
    repeat split; auto; simpl; unfold lineFeeds; lia.
  - destruct s as [|c s']; [discriminate|].
    destruct (is_line_terminator c) eqn:Hc; [discriminate|].
    exists [c], s'. repeat split; auto; simpl.
    + lia.
    + unfold is_line_terminator in Hc. apply orb_false_iff in Hc as [Hc _].
      rewrite line_feeds_cons, Ascii.eqb_sym, Hc, line_feeds_nil. lia.
  - destruct (match_digits_sound s k x H) as (m & s' & Hs & Hk & Hm).
    exists m, s'. repeat split; auto; simpl; lia.
  - destruct (IH1 _ _ _ H) as (m1 & s1 & -> & H2 & Hb1).
    destruct (IH2 _ _ _ H2) as (m2 & s2 & -> & Hk & Hb2).
    exists (m1 ++ m2)%list, s2. rewrite line_feeds_app, app_assoc.
    repeat split; auto; simpl; lia.
  - destruct (run r1 s k) as [y|] eqn:H1.
    + injection H as ->. destruct (IH1 _ _ _ H1) as (m & s' & Hs & Hk & Hb).
      exists m, s'. repeat split; auto; simpl; lia.
    + destruct (IH2 _ _ _ H) as (m & s' & Hs & Hk & Hb).
      exists m, s'. repeat split; auto; simpl; lia.
  - destruct (run r1 s k) as [y|] eqn:H1.
    + injection H as ->. destruct (IH1 _ _ _ H1) as (m & s' & Hs & Hk & Hb).
      exists m, s'. repeat split; auto; simpl; lia.
    + exists [], s. repeat split; auto; simpl; rewrite ?line_feeds_nil; lia.
Qed.

Lemma match_at_sound r s n :
  match_at r s = Some n ->
  n <= List.length s
  /\ fst (line_feed_bounds r) <= line_feeds (firstn n s) <= snd (line_feed_bounds r).
Proof.
  unfold match_at. destruct (run r s Some) as [rest|] eqn:H; [|discriminate].
  intros Hn. injection Hn as <-.
  destruct (run_sound _ _ _ _ H) as (m & s' & -> & Hk & Hb). injection Hk as ->.
  rewrite length_app.
  replace (List.length m + List.length rest - List.length rest) with (List.length m) by lia.
  rewrite firstn_app, firstn_all, Nat.sub_diag. simpl. rewrite app_nil_r.
  split; [lia | exact Hb].
Qed.

(** The replacement writes the pieces of the input, the matched ones
    replaced; the pieces are the input past the characters skipped. *)
Lemma replace_from_pieces r rep s : forall skip,
  replace_from r rep skip s = flat_map (replaced_by rep) (pieces_from r skip s).
Proof.
  induction s as [|c rest IH]; intros skip; simpl.
  - destruct skip; [destruct (match_at r [])|]; simpl; now rewrite ?app_nil_r.
  - destruct skip as [|n]; [|apply IH].
    destruct (match_at r (c :: rest)) as [[|n]|]; simpl; now rewrite IH.
Qed.

Lemma pieces_from_source r s : forall skip,
  skip <= List.length s ->
  flat_map source_of (pieces_from r skip s) = skipn skip s.
Proof.
  induction s as [|c rest IH]; intros skip Hskip; simpl in *.
  - destruct skip; [destruct (match_at r [])|]; reflexivity.
  - destruct skip as [|n]; [|apply IH; lia].
    destruct (match_at r (c :: rest)) as [[|n]|] eqn:Hm; simpl.
    + now rewrite (IH 0) by lia.
    + apply match_at_sound in Hm as [Hn _]. simpl in Hn.
      rewrite IH by lia. f_equal.
      rewrite <- (firstn_skipn n rest) at 3. reflexivity.
    + now rewrite (IH 0) by lia.
Qed.

Lemma licenseRegex_bounds : line_feed_bounds licenseRegex = (4, 5).
Proof. reflexivity. Qed.

Lemma matched_texts_matched text ps :
  matched_texts (Matched text :: ps) = JS.str text :: matched_texts ps.
Proof. reflexivity. Qed.

Lemma matched_texts_kept c ps : matched_texts (Kept c :: ps) = matched_texts ps.
Proof. reflexivity. Qed.

Lemma lineFeeds_str l : lineFeeds (JS.str l) = line_feeds l.
Proof.
  unfold lineFeeds, JS.chars, JS.str. now rewrite list_ascii_of_string_of_list_ascii.
Qed.

Lemma replace_from_here r rep c rest :
  replace_from r rep 0 (c :: rest)
  = match match_at r (c :: rest) with
    | Some 0 => (rep ++ c :: replace_from r rep 0 rest)%list
    | Some (S n) => (rep ++ replace_from r rep n rest)%list
    | None => c :: replace_from r rep 0 rest
    end.
Proof. reflexivity. Qed.

Lemma pieces_from_here r c rest :
  pieces_from r 0 (c :: rest)
  = match match_at r (c :: rest) with
    | Some 0 => Matched [] :: Kept c :: pieces_from r 0 rest
    | Some (S n) => Matched (firstn (S n) (c :: rest)) :: pieces_from r n rest
    | None => Kept c :: pieces_from r 0 rest
    end.
Proof. reflexivity. Qed.

Lemma licenseRegex_match_at s n :
  match_at licenseRegex s = Some n ->
  n <= List.length s /\ 4 <= line_feeds (firstn n s) <= 5.
Proof.
  intros H. apply match_at_sound in H. now rewrite licenseRegex_bounds in H.
Qed.

(** Line feeds of the output and of the input, piece by piece. *)
Lemma strip_line_feeds_from replacement s : forall skip,
  line_feeds replacement = 4 ->
  skip <= List.length s ->
  line_feeds (skipn skip s)
  = line_feeds (replace_from licenseRegex replacement skip s)
    + List.length (filter (fun block => Nat.eqb (lineFeeds block) 5)
                     (matched_texts (pieces_from licenseRegex skip s)))
  /\ Forall (fun block => lineFeeds block = 4 \/ lineFeeds block = 5)
       (matched_texts (pieces_from licenseRegex skip s)).
Proof.
  intros skip Hrep. revert skip.
  induction s as [|c rest IH]; intros skip Hskip.
  - destruct skip; [|simpl in Hskip; lia].
    split; [reflexivity | constructor].
  - destruct skip as [|n]; [|simpl in *; apply IH; lia].
    rewrite replace_from_here, pieces_from_here.
    destruct (match_at licenseRegex (c :: rest)) as [[|n]|] eqn:Hm.
    + apply licenseRegex_match_at in Hm as [_ Hb].
      simpl firstn in Hb. rewrite line_feeds_nil in Hb. lia.
    + apply licenseRegex_match_at in Hm as [Hn Hb]. simpl in Hn.
      destruct (IH n ltac:(lia)) as [Hcount Hall].
      set (block := firstn (S n) (c :: rest)) in *.
      assert (Hsplit : line_feeds (skipn 0 (c :: rest))
                       = line_feeds block + line_feeds (skipn n rest)).
      { rewrite <- line_feeds_app. unfold block.
        change (skipn n rest) with (skipn (S n) (c :: rest)).
        now rewrite firstn_skipn. }
      rewrite matched_texts_matched, line_feeds_app, Hrep, Hsplit, Hcount.
      cbn [filter]. rewrite lineFeeds_str.
      split.
      * destruct (Nat.eqb (line_feeds block) 5) eqn:H5.
        -- apply Nat.eqb_eq in H5. cbn [List.length]. lia.
        -- apply Nat.eqb_neq in H5. lia.
      * constructor; [rewrite lineFeeds_str; lia | exact Hall].
    + destruct (IH 0 ltac:(lia)) as [Hcount Hall]. simpl skipn in *.
      rewrite matched_texts_kept. split; [|exact Hall].
      rewrite !line_feeds_cons, Hcount. lia.
Qed.

(** X11: on every text, each block the transform replaces spans five or six
    lines, and the text loses one line for each block of six: the line
    count is kept exactly when no block with the optional line is found. *)
Lemma stripApacheLicense_line_count contents :
  lineCount contents
  = lineCount (stripApacheLicense contents) + List.length (longBlocks contents)
  /\ Forall (fun block => lineCount block = 5 \/ lineCount block = 6)
       (licenseBlocks contents).
Proof.
  unfold lineCount, longBlocks, licenseBlocks, stripApacheLicense, replace_global.
  rewrite lineFeeds_str.
  destruct (strip_line_feeds_from (JS.chars (JS.nl ++ JS.nl ++ JS.nl ++ JS.nl))
              (JS.chars contents) 0 eq_refl (Nat.le_0_l _)) as [Hcount Hall].
  simpl skipn in Hcount. unfold lineFeeds at 1. rewrite Hcount.
  split; [lia|].
  eapply Forall_impl; [|exact Hall]. simpl. intros block [H|H]; lia.
Qed.

(** The text between the blocks is kept as it is, and every block is
    replaced once: the output is the pieces of the input with each matched
    piece turned into the four line feeds. *)
Lemma stripApacheLicense_pieces contents :
  let pieces := pieces_from licenseRegex 0 (JS.chars contents) in
  JS.chars contents = flat_map source_of pieces
  /\ JS.chars (stripApacheLicense contents)
     = flat_map (replaced_by (JS.chars (JS.nl ++ JS.nl ++ JS.nl ++ JS.nl))) pieces
  /\ licenseBlocks contents = matched_texts pieces.
Proof.
  cbv zeta. split; [|split; [|reflexivity]].
  - now rewrite pieces_from_source by apply Nat.le_0_l.
  - unfold stripApacheLicense, replace_global, JS.chars, JS.str.
    rewrite list_ascii_of_string_of_list_ascii. apply replace_from_pieces.
Qed.

(** C2, at [mitLicensedSource]: the one block found is the header, six
    lines of it; it is replaced by four line feeds, which span five lines,
    and the text loses a line. *)
Lemma stripApacheLicense_mit_header :
  licenseBlocks mitLicensedSource = [mitHeader]
  /\ lineCount mitHeader = 6
  /\ stripApacheLicense mitLicensedSource
     = JS.nl ++ JS.nl ++ JS.nl ++ JS.nl ++ JS.nl ++ "foo();"
  /\ lineCount mitLicensedSource = 7
  /\ lineCount (stripApacheLicense mitLicensedSource) = 6.
Proof. repeat split; vm_compute; reflexivity. Qed.

(** The header without the optional line keeps the line count. *)
Lemma stripApacheLicense_google_header :
  licenseBlocks googleLicensedSource = [googleHeader]
  /\ lineCount googleHeader = 5
  /\ stripApacheLicense googleLicensedSource
     = JS.nl ++ JS.nl ++ JS.nl ++ JS.nl ++ JS.nl ++ "foo();"
  /\ lineCount googleLicensedSource = 6
  /\ lineCount (stripApacheLicense googleLicensedSource) = 6.
Proof. repeat split; vm_compute; reflexivity. Qed.

(** ** Wrappers of the chunks of the script *)

Lemma blocksChunk_in_chunks :
  nth_error chunks 0 = Some blocklyChunk /\ nth_error chunks 1 = Some blocksChunk.
Proof. split; reflexivity. Qed.

(** C6, at the [blocks] chunk: the plain-script branch is one statement, in
    which [factory] is called and its result assigned. *)
Lemma blocksChunk_script_branch :
  scriptExportStatements blocksChunk
  = [ "root.Blockly.libraryBlocks = factory(root.Blockly);" ]
  /\ exists before after,
       chunkWrapper "build/src" blocksChunk
       = before
           ++ template
                [ "  } else { // Script";
                  "    root.Blockly.libraryBlocks = factory(root.Blockly);";
                  "  }" ]
           ++ after
       /\ before = loaderHead
                     ++ amdBranch (parentFile blocklyChunk)
                     ++ cjsBranch ("require(" ++ parentFile blocklyChunk ++ ")")
       /\ after = factoryFunction "__parent__" "__parent__.__namespace__"
                    "module$build$src$blocks$blocks".
Proof.
  split; [reflexivity|].
  eexists; eexists; split; [|split; reflexivity].
  vm_compute; reflexivity.
Qed.

(** C3, as stated, fails: [blocksChunk] and [blocksChunk_otherEntry] agree
    on the name, the parent's name, [scriptExport] and [scriptNamedExports],
    and their wrappers differ, since the wrapper names the module object
    after the entry path. *)
Lemma chunkWrapper_entry_counterexample :
  name blocksChunk = name blocksChunk_otherEntry
  /\ option_map name (parent blocksChunk)
     = option_map name (parent blocksChunk_otherEntry)
  /\ scriptExport blocksChunk = scriptExport blocksChunk_otherEntry
  /\ scriptNamedExports blocksChunk = scriptNamedExports blocksChunk_otherEntry
  /\ modulePath "build/src" blocksChunk = "module$build$src$blocks$blocks"
  /\ modulePath "build/src" blocksChunk_otherEntry = "module$build$src$blocks$all"
  /\ chunkWrapper "build/src" blocksChunk
     <> chunkWrapper "build/src" blocksChunk_otherEntry.
Proof.
  repeat split; try reflexivity.
  apply String.eqb_neq. vm_compute. reflexivity.
Qed.

(** The parent's [scriptExport] shows in the wrapper too: it is the argument
    of [factory] in the plain-script branch. *)
Lemma chunkWrapper_parent_export_dependence :
  name blocksChunk = name blocksChunk_otherParentExport
  /\ entry blocksChunk = entry blocksChunk_otherParentExport
  /\ option_map name (parent blocksChunk)
     = option_map name (parent blocksChunk_otherParentExport)
  /\ scriptExport blocksChunk = scriptExport blocksChunk_otherParentExport
  /\ scriptNamedExports blocksChunk = scriptNamedExports blocksChunk_otherParentExport
  /\ chunkWrapper "build/src" blocksChunk
     <> chunkWrapper "build/src" blocksChunk_otherParentExport.
Proof.
  repeat split; try reflexivity.
  apply String.eqb_neq. vm_compute. reflexivity.
Qed.

(** [chunkWrapper_deterministic] at two chunks with different globs and
    parents that differ in entry point, globs and named exports. *)
Lemma chunkWrapper_deterministic_example :
  files blocksChunk <> files blocksChunk_otherFiles
  /\ parent blocksChunk <> parent blocksChunk_otherFiles
  /\ chunkWrapper "build/src" blocksChunk
     = chunkWrapper "build/src" blocksChunk_otherFiles.
Proof.
  split; [discriminate|]. split; [discriminate|].
  apply (chunkWrapper_deterministic "build/src" blocksChunk blocksChunk_otherFiles);
    reflexivity.
Defined.

(** [chunkWrapper_without_named_exports] at the [blocks] chunk. *)
Lemma chunkWrapper_without_named_exports_example :
  scriptNamedExports blocksChunk = None
  /\ scriptExportStatements blocksChunk
     = [ "root.Blockly.libraryBlocks = factory(root.Blockly);" ].
Proof.
  split; [reflexivity|].
  exact (proj1 (chunkWrapper_without_named_exports "build/src" blocksChunk eq_refl)).
Defined.

(** [getChunkOptions_counts_and_order] on the scenario of a root chunk with
    three files and a child with two. *)
Lemma getChunkOptions_scenario :
  let m := getChunkOptions "build/src" scenarioGlob [scenarioRoot; scenarioChild] in
  chunk m = [ "root:3"; "child:2:root" ]
  /\ List.length (js m) = 5
  /\ js m = [ "build/src/root/a.js"; "build/src/root/b.js"; "build/src/root/sub/e.js";
              "build/src/child/c.js"; "build/src/child/d.js" ]
  /\ map recordedCount (chunk m) = [ Some 3; Some 2 ].
Proof.
  destruct (getChunkOptions_counts_and_order "build/src" scenarioGlob
              [scenarioRoot; scenarioChild]) as (Hchunk & Hsum & Hjs & Hcount).
  cbv zeta. rewrite (Hcount eq_refl), <- Hsum, Hjs, Hchunk.
  repeat split.
Defined.

(** ** Entry points and chunk resolution *)

(** C7, as stated, fails: the entry point of [misconfiguredChunk] is not
    among its resolved files, and [getChunkOptions] returns the manifest all
    the same. *)
Lemma getChunkOptions_entry_counterexample :
  resolvedFiles "build/src" coreGlob misconfiguredChunk
  = [ "build/src/core/blockly.js"; "build/src/core/block.js" ]
  /\ entryPath "build/src" misconfiguredChunk = "build/src/core/main.js"
  /\ ~ In (entryPath "build/src" misconfiguredChunk)
          (resolvedFiles "build/src" coreGlob misconfiguredChunk)
  /\ getChunkOptions "build/src" coreGlob [misconfiguredChunk]
     = {| chunk := [ "blockly:2" ];
          js := [ "build/src/core/blockly.js"; "build/src/core/block.js" ];
          chunk_wrapper :=
            [ "blockly:" ++ chunkWrapper "build/src" misconfiguredChunk ] |}.
Proof.
  split; [reflexivity|]. split; [reflexivity|]. split; [|reflexivity].
  intros [H|[H|[]]]; discriminate H.
Qed.

Section EntryFacts.

Variable TSC_OUTPUT_DIR_POSIX : string.
Variable globSync : string -> string -> list string.

Lemma resolveChunk_set_entry e c acc :
  resolveChunk TSC_OUTPUT_DIR_POSIX globSync acc (set_entry e c)
  = resolveChunk TSC_OUTPUT_DIR_POSIX globSync acc c.
Proof. destruct acc. reflexivity. Qed.

Lemma fold_resolveChunk_set_entry (f : Chunk -> string) cs : forall acc,
  fold_left (resolveChunk TSC_OUTPUT_DIR_POSIX globSync)
    (map (fun c => set_entry (f c) c) cs) acc
  = fold_left (resolveChunk TSC_OUTPUT_DIR_POSIX globSync) cs acc.
Proof.
  induction cs as [|c cs IH]; intros acc; simpl; [reflexivity|].
  now rewrite resolveChunk_set_entry, IH.
Qed.

(** C7, as amended: [getChunkOptions] has no check of the entry point.
    Whatever entry points the chunks are given, in or out of their resolved
    files, it returns a manifest with the same chunk descriptors and the
    same flat file list, and one wrapper per chunk. *)
Theorem getChunkOptions_ignores_entry (f : Chunk -> string) (cs : list Chunk) :
  let m := getChunkOptions TSC_OUTPUT_DIR_POSIX globSync cs in
  let m' := getChunkOptions TSC_OUTPUT_DIR_POSIX globSync
              (map (fun c => set_entry (f c) c) cs) in
  chunk m' = chunk m
  /\ js m' = js m
  /\ List.length (chunk m') = List.length cs
  /\ List.length (chunk_wrapper m') = List.length cs.
Proof.
  cbv zeta. unfold getChunkOptions.
  rewrite fold_resolveChunk_set_entry.
  destruct (fold_left _ cs ([], [])) as [opts all] eqn:Hfold. simpl.
  rewrite fold_resolveChunk in Hfold. injection Hfold as Hopts Hall.
  repeat split.
  - subst opts. simpl. now rewrite length_map.
  - now rewrite !length_map.
Qed.

End EntryFacts.

(** ** Tasks *)

Section TaskFacts.

Variable World : Type.
Variable os_unlink : string -> World -> Completion unit * World.
Variable os_rimraf : string -> World -> Promise * World.

(** C8: with [BUILD_DIR] equal to [.] or [/], [cleanBuildDir] returns a
    rejected promise and leaves the world and the list of file-system calls
    as they were; with any other value its one file-system call is
    [rimraf(BUILD_DIR)], whose promise it returns. *)
Theorem cleanBuildDir_refuses (BUILD_DIR : string) (st : State World) :
  ((BUILD_DIR = "." \/ BUILD_DIR = "/") ->
   cleanBuildDir World os_rimraf BUILD_DIR st
   = (Normal (Rejected (VString ("Refusing to rm -rf " ++ BUILD_DIR))), st))
  /\ (BUILD_DIR <> "." -> BUILD_DIR <> "/" ->
      cleanBuildDir World os_rimraf BUILD_DIR st
      = (Normal (fst (os_rimraf BUILD_DIR (world st))),
         {| world := snd (os_rimraf BUILD_DIR (world st));
            calls := (calls st ++ [CallRimraf BUILD_DIR])%list |})).
Proof.
  unfold cleanBuildDir. split.
  - intros [-> | ->]; reflexivity.
  - intros Hdot Hroot.
    apply String.eqb_neq in Hdot. apply String.eqb_neq in Hroot.
    rewrite Hdot, Hroot. simpl. unfold rimraf.
    destruct (os_rimraf BUILD_DIR (world st)); reflexivity.
Qed.

(** C9, as amended: whatever [fs.unlinkSync] does on the stale artifact,
    return or throw any error, the task goes on to build the compile
    pipeline and completes normally; the deletion is its only file-system
    call. *)
Theorem buildAdvancedCompilationTest_ignores_unlink_errors
    (TSC_OUTPUT_DIR : string) (st : State World) :
  buildAdvancedCompilationTest World os_unlink TSC_OUTPUT_DIR st
  = (Normal
       {| srcs := [ TSC_OUTPUT_DIR ++ "/**/*.js";
                    "tests/compile/main.js";
                    "tests/compile/test_blocks.js" ];
          compileOptions :=
            [ ("dependency_mode", "PRUNE");
              ("compilation_level", "ADVANCED_OPTIMIZATIONS");
              ("entry_point", "./tests/compile/main.js");
              ("js_output_file", "main_compressed.js") ];
          dest := "./tests/compile/" |},
     {| world := snd (os_unlink "./tests/compile/main_compressed.js" (world st));
        calls := (calls st ++ [CallUnlinkSync "./tests/compile/main_compressed.js"])%list |}).
Proof.
  unfold buildAdvancedCompilationTest, bind, try_catch, fs_unlinkSync, ret.
  destruct (os_unlink "./tests/compile/main_compressed.js" (world st)) as [[[]|e] w];
    reflexivity.
Qed.

End TaskFacts.

(** [cleanBuildDir_refuses] at [.], at [/] and at [build]. *)
Lemma cleanBuildDir_refuses_example :
  cleanBuildDir unit quietRimraf "." startState
  = (Normal (Rejected (VString "Refusing to rm -rf .")), startState)
  /\ cleanBuildDir unit quietRimraf "/" startState
     = (Normal (Rejected (VString "Refusing to rm -rf /")), startState)
  /\ cleanBuildDir unit quietRimraf "build" startState
     = (Normal Fulfilled, {| world := tt; calls := [CallRimraf "build"] |}).
Proof.
  split; [|split].
  - exact (proj1 (cleanBuildDir_refuses unit quietRimraf "." startState)
             (or_introl eq_refl)).
  - exact (proj1 (cleanBuildDir_refuses unit quietRimraf "/" startState)
             (or_intror eq_refl)).
  - apply (proj2 (cleanBuildDir_refuses unit quietRimraf "build" startState));
      discriminate.
Defined.

(** C9, as stated, fails: on a machine where the deletion is refused with
    [EACCES], the error is not thrown on; the task completes as it does
    when the file is missing. *)
Lemma buildAdvancedCompilationTest_permission_counterexample :
  fst (deniedUnlink "./tests/compile/main_compressed.js" tt) = Throw (VError "EACCES")
  /\ fst (buildAdvancedCompilationTest unit deniedUnlink "build/src" startState)
     <> Throw (VError "EACCES")
  /\ fst (buildAdvancedCompilationTest unit deniedUnlink "build/src" startState)
     = fst (buildAdvancedCompilationTest unit missingUnlink "build/src" startState)
  /\ exists pipeline,
       fst (buildAdvancedCompilationTest unit deniedUnlink "build/src" startState)
       = Normal pipeline.
Proof.
  split; [reflexivity|]. split; [discriminate|]. split; [reflexivity|].
  eexists. reflexivity.
Qed.

(** * More properties of the script *)

(** ** Parents *)

Lemma chunks_assignParents : assignParents chunk_literals = Some chunks.
Proof. reflexivity. Qed.

(** X1: the two assignments after the [chunks] literal throw on an empty
    list; on any other list they keep the number and the other fields of the
    chunks, give the first chunk no parent and every other chunk the first
    one as parent, so that no chunk has a grandparent. *)
Theorem assignParents_star (literals : list Chunk) :
  match assignParents literals with
  | None => literals = []
  | Some cs =>
      List.length cs = List.length literals
      /\ map name cs = map name literals
      /\ map files cs = map files literals
      /\ map entry cs = map entry literals
      /\ map scriptExport cs = map scriptExport literals
      /\ map scriptNamedExports cs = map scriptNamedExports literals
      /\ (exists root others,
            cs = root :: others
            /\ parent root = None
            /\ Forall (fun c => parent c = Some root) others)
      /\ Forall (fun c => forall p, parent c = Some p -> parent p = None) cs
  end.
Proof.
  destruct literals as [|c0 others]; simpl; [reflexivity|].
  rewrite length_map, !map_map. simpl.
  repeat split; try (now rewrite map_id).
  - exists (set_parent None c0), (map (set_parent (Some (set_parent None c0))) others).
    repeat split. apply Forall_forall. intros c Hc.
    apply in_map_iff in Hc as (c' & <- & _). reflexivity.
  - constructor; [intros p H; discriminate H|].
    apply Forall_forall. intros c Hc.
    apply in_map_iff in Hc as (c' & <- & _). simpl.
    intros p H. injection H as <-. reflexivity.
Qed.

(** ** Chunk boundaries *)

Lemma takeChunks_concat {A : Type} (ls : list (list A)) :
  takeChunks (map (@List.length A) ls) (concat ls) = ls.
Proof.
  induction ls as [|l ls IH]; simpl; [reflexivity|].
  rewrite firstn_app, firstn_all, Nat.sub_diag. simpl. rewrite app_nil_r.
  rewrite skipn_app, skipn_all, Nat.sub_diag. simpl. now rewrite IH.
Qed.

Section ManifestFacts.

Variable TSC_OUTPUT_DIR_POSIX : string.
Variable globSync : string -> string -> list string.

Local Abbreviation resolved := (resolvedFiles TSC_OUTPUT_DIR_POSIX globSync).
Local Abbreviation manifest := (getChunkOptions TSC_OUTPUT_DIR_POSIX globSync).

(** X2: the manifest alone gives back each chunk's files.  When no chunk
    name holds a colon, cutting the flat list [js] into runs of the lengths
    read from the descriptors yields the chunks' resolved file lists, in
    declaration order. *)
Theorem getChunkOptions_boundaries (cs : list Chunk) :
  forallb (fun c => no_colon (name c)) cs = true ->
  takeChunks
    (map (fun descriptor =>
            match recordedCount descriptor with
            | Some n => n
            | None => 0
            end) (chunk (manifest cs)))
    (js (manifest cs))
  = map resolved cs.
Proof.
  intros Hnames. rewrite getChunkOptions_fields. simpl.
  rewrite map_map.
  rewrite (map_ext_in _ (fun c => List.length (resolved c))).
  - rewrite <- (map_map resolved (@List.length string)). apply takeChunks_concat.
  - intros c Hc. rewrite recordedCount_chunkOption; [reflexivity|].
    rewrite forallb_forall in Hnames. now apply Hnames.
Qed.

(** X3: resolution neither drops nor merges matches.  A chunk has as many
    files as its globs have matches, counted glob by glob, and a path that
    [k] of the matches name occurs at least [k] times among its files: a
    file matched by two globs of a chunk is listed twice. *)
Theorem resolvedFiles_keeps_duplicates (c : Chunk) (file : string) :
  List.length (resolved c)
  = list_sum (map (fun glob => List.length (globSync glob TSC_OUTPUT_DIR_POSIX))
                  (globs c))
  /\ list_sum (map (fun glob =>
                      count_occ string_dec (globSync glob TSC_OUTPUT_DIR_POSIX) file)
                   (globs c))
     <= count_occ string_dec (resolved c)
          (Path.posix_join TSC_OUTPUT_DIR_POSIX file).
Proof.
  unfold resolvedFiles. split.
  - now rewrite length_map, length_flat_map.
  - generalize (globs c) as gs. intros gs.
    induction gs as [|g gs IH]; simpl; [lia|].
    rewrite map_app, count_occ_app.
    apply Nat.add_le_mono; [|exact IH].
    generalize (globSync g TSC_OUTPUT_DIR_POSIX) as matches. intros matches.
    induction matches as [|f matches IHm]; simpl; [lia|].
    destruct (string_dec f file) as [->|Hne].
    + destruct (string_dec _ _) as [_|Hn]; [lia | now elim Hn].
    + destruct (string_dec _ _); lia.
Qed.

(** X4: chunks are resolved one by one, with nothing carried from one to
    the next: the manifest of two lists of chunks put end to end is the two
    manifests put end to end, field by field. *)
Theorem getChunkOptions_app (cs1 cs2 : list Chunk) :
  chunk (manifest (cs1 ++ cs2)) = (chunk (manifest cs1) ++ chunk (manifest cs2))%list
  /\ js (manifest (cs1 ++ cs2)) = (js (manifest cs1) ++ js (manifest cs2))%list
  /\ chunk_wrapper (manifest (cs1 ++ cs2))
     = (chunk_wrapper (manifest cs1) ++ chunk_wrapper (manifest cs2))%list.
Proof.
  rewrite !getChunkOptions_fields. simpl.
  now rewrite !map_app, concat_app.
Qed.

End ManifestFacts.

(** [getChunkOptions_boundaries] on the scenario of a root chunk with three
    files and a child with two. *)
Lemma getChunkOptions_boundaries_scenario :
  takeChunks [3; 2]
    (js (getChunkOptions "build/src" scenarioGlob [scenarioRoot; scenarioChild]))
  = [ [ "build/src/root/a.js"; "build/src/root/b.js"; "build/src/root/sub/e.js" ];
      [ "build/src/child/c.js"; "build/src/child/d.js" ] ].
Proof.
  exact (getChunkOptions_boundaries "build/src" scenarioGlob
           [scenarioRoot; scenarioChild] eq_refl).
Defined.

(** ** Module paths *)

Lemma replaceAll_removes a b s :
  Ascii.eqb b a = false ->
  forallb (fun ch => negb (Ascii.eqb ch a)) (JS.chars (JS.replaceAll a b s)) = true.
Proof.
  intros Hba. induction s as [|ch s IH]; simpl; [reflexivity|].
  rewrite IH, andb_true_r.
  destruct (Ascii.eqb ch a) eqn:Hch; [now rewrite Hba | now rewrite Hch].
Qed.

Lemma append_length (a b : string) :
  String.length (a ++ b) = String.length a + String.length b.
Proof. induction a as [|x a IH]; simpl; [reflexivity | now rewrite IH]. Qed.

Lemma replace_js_suffix_strips (p : string) : JS.replace_js_suffix (p ++ ".js") = p.
Proof.
  induction p as [|ch p IH]; [reflexivity|].
  change (String ch p ++ ".js") with (String ch (p ++ ".js")).
  cbn [JS.replace_js_suffix].
  destruct (String.eqb (String ch (p ++ ".js")) ".js") eqn:Heq.
  - apply String.eqb_eq in Heq. apply (f_equal String.length) in Heq.
    simpl in Heq. rewrite append_length in Heq. simpl in Heq. lia.
  - now rewrite IH.
Qed.

Lemma replace_js_suffix_keeps (s : string) :
  (forall p, s <> p ++ ".js") -> JS.replace_js_suffix s = s.
Proof.
  induction s as [|ch s IH]; intros Hs; [reflexivity|].
  cbn [JS.replace_js_suffix].
  destruct (String.eqb (String ch s) ".js") eqn:Heq.
  - apply String.eqb_eq in Heq. now elim (Hs EmptyString).
  - rewrite IH; [reflexivity|].
    intros p ->. now apply (Hs (String ch p)).
Qed.

Section ModulePathFacts.

Variable TSC_OUTPUT_DIR_POSIX : string.

(** X5: the name of a module object holds no slash, whatever the entry
    path and the output directory are: every slash of the joined path has
    become a dollar sign. *)
Theorem modulePath_no_slash (c : Chunk) :
  exists munged,
    modulePath TSC_OUTPUT_DIR_POSIX c = "module$" ++ munged
    /\ forallb (fun ch => negb (Ascii.eqb ch "/")) (JS.chars munged) = true
    /\ String.length munged
       <= String.length (Path.posix_join TSC_OUTPUT_DIR_POSIX (entry c)).
Proof.
  unfold modulePath. eexists. split; [reflexivity|]. split.
  - now apply replaceAll_removes.
  - generalize (Path.posix_join TSC_OUTPUT_DIR_POSIX (entry c)) as path.
    assert (Hlen : forall s, String.length (JS.replaceAll "/" "$" s) = String.length s).
    { induction s as [|ch s IH]; simpl; [reflexivity | now rewrite IH]. }
    intros path. rewrite Hlen.
    induction path as [|ch path IH]; [simpl; lia|].
    cbn [JS.replace_js_suffix].
    destruct (String.eqb (String ch path) ".js"); simpl in *; lia.
Qed.

(** X6: only a [.js] that ends the joined entry path is taken off.  When
    the path is [p.js] the module object is named after [p]; when the path
    does not end in [.js] it is named after the whole path. *)
Theorem modulePath_extension (c : Chunk) :
  (forall p,
     Path.posix_join TSC_OUTPUT_DIR_POSIX (entry c) = p ++ ".js" ->
     modulePath TSC_OUTPUT_DIR_POSIX c = "module$" ++ JS.replaceAll "/" "$" p)
  /\ ((forall p, Path.posix_join TSC_OUTPUT_DIR_POSIX (entry c) <> p ++ ".js") ->
      modulePath TSC_OUTPUT_DIR_POSIX c
      = "module$"
          ++ JS.replaceAll "/" "$" (Path.posix_join TSC_OUTPUT_DIR_POSIX (entry c))).
Proof.
  unfold modulePath. split.
  - intros p ->. now rewrite replace_js_suffix_strips.
  - intros H. now rewrite replace_js_suffix_keeps.
Qed.

End ModulePathFacts.

(** [modulePath_extension] at an entry path with [.js] inside and at its
    end. *)
Lemma modulePath_extension_example :
  modulePath "build/src" (set_entry "lib.js/core.js" blocklyChunk)
  = "module$build$src$lib.js$core".
Proof.
  exact (proj1 (modulePath_extension "build/src" (set_entry "lib.js/core.js" blocklyChunk))
           "build/src/lib.js/core" eq_refl).
Defined.

(** ** The statements of the plain-script branch *)

Lemma js_get_pair (obj : JSObject) (location namedExport : string) :
  NoDup (map fst obj) -> In (location, namedExport) obj ->
  js_get obj location = Some namedExport.
Proof.
  induction obj as [|[k v] obj IH]; intros Hnd Hin; [contradiction|].
  simpl in *. inversion Hnd as [|? ? Hk Hnd']; subst.
  destruct Hin as [Heq|Hin].
  - injection Heq as -> ->. now rewrite String.eqb_refl.
  - destruct (String.eqb k location) eqn:Hkl.
    + apply String.eqb_eq in Hkl as ->. elim Hk.
      apply in_map_iff. now exists (location, namedExport).
    + now apply IH.
Qed.

(** X7: for a chunk whose [scriptNamedExports] has distinct keys, the
    plain-script branch is the assignment of [factory]'s result to
    [root.<scriptExport>] (with [root.<parent.scriptExport>] as argument
    when there is a parent), then for each property [location: namedExport],
    in the order of the object, the statement
    [root.<location> = root.<scriptExport>.<namedExport>;]. *)
Theorem scriptExportStatements_shape (c : Chunk) (obj : JSObject) :
  scriptNamedExports c = Some obj ->
  NoDup (map fst obj) ->
  scriptExportStatements c
  = ("root." ++ scriptExport c ++ " = factory("
       ++ match parent c with
          | Some p => "root." ++ scriptExport p
          | None => EmptyString
          end ++ ");")
      :: map (fun property =>
                "root." ++ fst property ++ " = root." ++ scriptExport c ++ "."
                  ++ snd property ++ ";") obj.
Proof.
  intros Hobj Hnd. rewrite scriptExportStatements_eq, Hobj. f_equal.
  - unfold primaryExportStatement, wrapperVars. now destruct (parent c).
  - simpl. rewrite map_map. apply map_ext_in. intros [location namedExport] Hin.
    unfold namedExportStatement. rewrite Hobj. simpl.
    now rewrite (js_get_pair obj location namedExport Hnd Hin).
Qed.

(** [scriptExportStatements_shape] at a chunk with two named exports. *)
Lemma scriptExportStatements_shape_example :
  scriptExportStatements twoExportsChunk
  = [ "root.javascript = factory(root.Blockly);";
      "root.Blockly.JavaScript = root.javascript.javascriptGenerator;";
      "root.Blockly.JS = root.javascript.Order;" ].
Proof.
  apply (scriptExportStatements_shape twoExportsChunk
           [("Blockly.JavaScript", "javascriptGenerator"); ("Blockly.JS", "Order")]
           eq_refl).
  repeat constructor; simpl; intuition discriminate.
Defined.

(** ** Licence headers *)

Lemma chars_app (a b : string) : JS.chars (a ++ b) = (JS.chars a ++ JS.chars b)%list.
Proof. induction a as [|x a IH]; simpl; [reflexivity | now rewrite IH]. Qed.

Lemma str_app (a b : list ascii) : JS.str (a ++ b)%list = JS.str a ++ JS.str b.
Proof. induction a as [|x a IH]; simpl; [reflexivity | now rewrite IH]. Qed.

Lemma str_chars (s : string) : JS.str (JS.chars s) = s.
Proof. apply string_of_list_ascii_of_string. Qed.

Lemma chars_str (l : list ascii) : JS.chars (JS.str l) = l.
Proof. apply list_ascii_of_string_of_list_ascii. Qed.

Lemma str_of_chars (l : list ascii) (s : string) : l = JS.chars s -> JS.str l = s.
Proof. intros ->. apply str_chars. Qed.

Lemma match_digits_lang s : forall k x,
  match_digits s k = Some x ->
  exists m s', s = (m ++ s')%list /\ k s' = Some x /\ lang Digits m.
Proof.
  induction s as [|c s IH]; intros k x H; simpl in H; [discriminate|].
  destruct (is_digit c) eqn:Hc; [|discriminate].
  destruct (match_digits s k) as [r|] eqn:Hrec.
  - injection H as ->. destruct (IH k x Hrec) as (m & s' & -> & Hk & _ & Hm).
    exists (c :: m), s'. repeat split; [exact Hk | discriminate |].
    simpl. now rewrite Hc, Hm.
  - exists [c], s. repeat split; [exact H | discriminate |].
    simpl. now rewrite Hc.
Qed.

(** What a successful run consumed is a word of the pattern. *)
Lemma run_lang r : forall s k x,
  run r s k = Some x ->
  exists m s', s = (m ++ s')%list /\ k s' = Some x /\ lang r m.
Proof.
  induction r as [p| | |r1 IH1 r2 IH2|r1 IH1 r2 IH2|r1 IH1]; intros s k x H; simpl in H.
  - destruct (match_lit (JS.chars p) s) as [s'|] eqn:Hp; [|discriminate].
    apply match_lit_sound in Hp. exists (JS.chars p), s'. now repeat split.
  - destruct s as [|c s']; [discriminate|].
    destruct (is_line_terminator c) eqn:Hc; [discriminate|].
    exists [c], s'. repeat split; [exact H|]. now exists c.
  - now apply match_digits_lang.
  - destruct (IH1 _ _ _ H) as (m1 & s1 & -> & H2 & L1).
    destruct (IH2 _ _ _ H2) as (m2 & s2 & -> & Hk & L2).
    exists (m1 ++ m2)%list, s2. rewrite app_assoc. repeat split; [exact Hk|].
    now exists m1, m2.
  - destruct (run r1 s k) as [y|] eqn:H1.
    + injection H as ->. destruct (IH1 _ _ _ H1) as (m & s' & Hs & Hk & L).
      exists m, s'. repeat split; auto. now left.
    + destruct (IH2 _ _ _ H) as (m & s' & Hs & Hk & L).
      exists m, s'. repeat split; auto. now right.
  - destruct (run r1 s k) as [y|] eqn:H1.
    + injection H as ->. destruct (IH1 _ _ _ H1) as (m & s' & Hs & Hk & L).
      exists m, s'. repeat split; auto. now right.
    + exists [], s. repeat split; auto. now left.
Qed.

Lemma match_at_lang r s n : match_at r s = Some n -> lang r (firstn n s).
Proof.
  unfold match_at. destruct (run r s Some) as [rest|] eqn:H; [|discriminate].
  intros Hn. injection Hn as <-.
  destruct (run_lang _ _ _ _ H) as (m & s' & -> & Hk & L). injection Hk as ->.
  rewrite length_app.
  replace (List.length m + List.length rest - List.length rest) with (List.length m) by lia.
  rewrite firstn_app, firstn_all, Nat.sub_diag. simpl. now rewrite app_nil_r.
Qed.

Lemma pieces_from_lang r s : forall skip,
  Forall (fun block => lang r (JS.chars block)) (matched_texts (pieces_from r skip s)).
Proof.
  induction s as [|c rest IH]; intros skip; simpl.
  - destruct skip; [|constructor].
    destruct (match_at r []) as [n|] eqn:Hm; [|constructor].
    apply match_at_lang in Hm. rewrite firstn_nil in Hm.
    constructor; [exact Hm | constructor].
  - destruct skip as [|n]; [|apply IH].
    destruct (match_at r (c :: rest)) as [[|n]|] eqn:Hm.
    + apply match_at_lang in Hm. rewrite matched_texts_matched, matched_texts_kept.
      constructor; [exact Hm | apply IH].
    + apply match_at_lang in Hm. rewrite matched_texts_matched.
      constructor; [now rewrite chars_str | apply IH].
    + rewrite matched_texts_kept. apply IH.
Qed.

(** The words of [licenseRegex] are the well-formed headers. *)
Lemma licenseRegex_lang m : lang licenseRegex m -> isLicenseHeader (JS.str m).
Proof.
  unfold licenseRegex. cbn [lang].
  intros (m1 & t1 & -> & -> & m2 & t2 & -> & -> & m3 & t3 & -> & -> & mc & t4 & -> & Hc
          & m5 & t5 & -> & -> & mo & t6 & -> & Hopt & m7 & t7 & -> & -> & md & t8 & -> & Hd
          & m9 & m10 & -> & -> & ->).
  destruct Hc as (c1 & tc & -> & -> & year & tc2 & -> & [Hy Hdig] & sp & own & -> & -> & Hown).
  destruct Hd as (minor & -> & Hminor).
  assert (Hown' : exists owner, own = JS.chars owner
             /\ (owner = "Google LLC" \/ owner = "Massachusetts Institute of Technology")).
  { destruct Hown as [->| ->]; eexists; split; eauto. }
  destruct Hown' as (owner & -> & Howner).
  assert (Hres : exists reserved,
             mo = JS.chars match reserved with
                           | Some c => " * All rights reserved" ++ String c JS.nl
                           | None => EmptyString
                           end
             /\ match reserved with
                | Some c => is_line_terminator c = false
                | None => True
                end).
  { destruct Hopt as [->|(a & b & -> & -> & dc & e & -> & (c & -> & Hc) & ->)].
    - now exists None.
    - exists (Some c). split; [|exact Hc]. now rewrite chars_app. }
  destruct Hres as (reserved & -> & Hreserved).
  exists (JS.str year), owner, reserved, minor. split.
  - apply str_of_chars. unfold licenseHeader.
    rewrite !chars_app, chars_str, <- !app_assoc. reflexivity.
  - repeat split; auto.
    + intros H. apply Hy. apply (f_equal JS.chars) in H. now rewrite chars_str in H.
    + now rewrite chars_str.
Qed.

(** X8: every block [stripApacheLicense] replaces is a header of the one
    form [licenseRegex] spells out, with a year of digits and Google LLC or
    the Massachusetts Institute of Technology as owner: no other comment is
    taken out. *)
Theorem stripApacheLicense_only_headers (contents : string) :
  Forall isLicenseHeader (licenseBlocks contents).
Proof.
  unfold licenseBlocks.
  eapply Forall_impl; [|apply pieces_from_lang].
  intros block Hlang. apply licenseRegex_lang in Hlang. now rewrite str_chars in Hlang.
Qed.

(** *** Finding a header *)

Lemma match_digits_exact year : forall s k x,
  year <> [] ->
  forallb is_digit year = true ->
  match s with
  | [] => True
  | c :: _ => is_digit c = false
  end ->
  k s = Some x ->
  match_digits (year ++ s)%list k = Some x.
Proof.
  induction year as [|d year IH]; intros s k x Hne Hdig Hs Hk; [now elim Hne|].
  simpl in Hdig. apply andb_true_iff in Hdig as [Hd Hdig].
  simpl. rewrite Hd. destruct year as [|d' year].
  - simpl. destruct s as [|c s]; simpl; [exact Hk|]. now rewrite Hs.
  - now rewrite (IH s k x) by (auto; discriminate).
Qed.

Lemma licenseRegex_finds_header year owner reserved minor rest :
  wellFormedHeader year owner reserved minor ->
  run licenseRegex (JS.chars (licenseHeader year owner reserved minor ++ rest)) Some
  = Some (JS.chars rest).
Proof.
  intros (Hy & Hdig & Howner & Hres & Hminor).
  assert (Hyear : JS.chars year <> []).
  { intros H. apply Hy. now destruct year. }
  unfold licenseRegex, licenseHeader. rewrite !append_assoc.
  cbn [run JS.chars list_ascii_of_string String.append match_lit JS.nl].
  rewrite !Ascii.eqb_refl.
  change (list_ascii_of_string (year ++ ?t)) with (JS.chars (year ++ t)).
  rewrite chars_app.
  apply match_digits_exact; [exact Hyear | exact Hdig | reflexivity |].
  destruct Howner as [-> | ->], reserved as [c|];
    cbn [run JS.chars list_ascii_of_string String.append match_lit JS.nl];
    cbn; rewrite ?Hres, ?Hminor; cbn; rewrite ?Hres, ?Hminor; reflexivity.
Qed.

Lemma chars_length (s : string) : List.length (JS.chars s) = String.length s.
Proof. induction s as [|c s IH]; simpl; [reflexivity | now rewrite IH]. Qed.

Lemma licenseHeader_length year owner reserved minor :
  4 < String.length (licenseHeader year owner reserved minor).
Proof.
  unfold licenseHeader. rewrite !append_length. simpl. lia.
Qed.

Lemma match_at_header year owner reserved minor rest :
  wellFormedHeader year owner reserved minor ->
  match_at licenseRegex (JS.chars (licenseHeader year owner reserved minor ++ rest))
  = Some (String.length (licenseHeader year owner reserved minor)).
Proof.
  intros H. unfold match_at. rewrite (licenseRegex_finds_header _ _ _ _ rest H).
  rewrite chars_app, length_app, !chars_length. f_equal. lia.
Qed.

Lemma match_at_not_comment c tail :
  Ascii.eqb c "/" = false -> match_at licenseRegex (c :: tail) = None.
Proof.
  intros H. unfold match_at, licenseRegex.
  cbn [run JS.chars list_ascii_of_string String.append match_lit JS.nl].
  now rewrite Ascii.eqb_sym, H.
Qed.

Lemma replace_from_skip r rep a : forall rest,
  replace_from r rep (List.length a) (a ++ rest)%list = replace_from r rep 0 rest.
Proof.
  induction a as [|c a IH]; intros rest; simpl; [now destruct rest | apply IH].
Qed.

Lemma replace_from_before rep before : forall s,
  forallb (fun ch => negb (Ascii.eqb ch "/")) before = true ->
  replace_from licenseRegex rep 0 (before ++ s)%list
  = (before ++ replace_from licenseRegex rep 0 s)%list.
Proof.
  induction before as [|c before IH]; intros s H; [reflexivity|].
  simpl in H. apply andb_true_iff in H as [Hc H]. apply negb_true_iff in Hc.
  change ((c :: before) ++ s)%list with (c :: (before ++ s))%list.
  rewrite replace_from_here, match_at_not_comment by exact Hc.
  now rewrite IH.
Qed.

(** X9: every header of that form is found.  In a text that has no slash
    before a well-formed header, the text before the header is kept, the
    header becomes four line feeds, and what follows is stripped as a text
    of its own. *)
Theorem stripApacheLicense_header (before rest year owner : string)
    (reserved : option ascii) (minor : ascii) :
  wellFormedHeader year owner reserved minor ->
  forallb (fun ch => negb (Ascii.eqb ch "/")) (JS.chars before) = true ->
  stripApacheLicense (before ++ licenseHeader year owner reserved minor ++ rest)
  = before ++ fourLineFeeds ++ stripApacheLicense rest.
Proof.
  intros Hwf Hbefore. unfold stripApacheLicense, replace_global.
  rewrite (chars_app before), replace_from_before by exact Hbefore.
  rewrite str_app, str_chars. f_equal.
  pose proof (match_at_header year owner reserved minor rest Hwf) as Hm.
  pose proof (licenseHeader_length year owner reserved minor) as Hlen.
  remember (licenseHeader year owner reserved minor) as header eqn:Hh.
  rewrite (chars_app header) in *.
  destruct (JS.chars header) as [|c tl] eqn:Hc.
  { rewrite <- chars_length, Hc in Hlen. simpl in Hlen. lia. }
  change ((c :: tl) ++ JS.chars rest)%list with (c :: (tl ++ JS.chars rest))%list in *.
  rewrite replace_from_here, Hm.
  rewrite <- chars_length, Hc. cbn [List.length].
  rewrite replace_from_skip, str_app, str_chars. reflexivity.
Qed.

(** [stripApacheLicense_header] at a file that opens with a blank line and
    the header with the optional line. *)
Lemma stripApacheLicense_header_example :
  stripApacheLicense
    (JS.nl ++ licenseHeader "2012" "Massachusetts Institute of Technology"
                (Some "."%char) "."%char ++ JS.nl ++ "foo();")
  = JS.nl ++ fourLineFeeds ++ JS.nl ++ "foo();".
Proof.
  apply (stripApacheLicense_header JS.nl (JS.nl ++ "foo();") "2012"
           "Massachusetts Institute of Technology" (Some "."%char) "."%char).
  - repeat split; try reflexivity; [discriminate | now right].
  - reflexivity.
Defined.

(** *** Texts without a header *)

Lemma str_length (l : list ascii) : String.length (JS.str l) = List.length l.
Proof. now rewrite <- chars_length, chars_str. Qed.

Lemma pieces_lengths rep ps :
  Forall (fun block => List.length rep < String.length block) (matched_texts ps) ->
  List.length (flat_map (replaced_by rep) ps) <= List.length (flat_map source_of ps)
  /\ (matched_texts ps <> [] ->
      List.length (flat_map (replaced_by rep) ps) < List.length (flat_map source_of ps)).
Proof.
  induction ps as [|[c|text] ps IH]; intros Hall.
  - split; [reflexivity | intros H; now elim H].
  - rewrite matched_texts_kept in *. destruct (IH Hall) as [Hle Hlt].
    simpl. split; [lia | intros H; specialize (Hlt H); lia].
  - rewrite matched_texts_matched in Hall. inversion Hall as [|? ? Hlen Hall']; subst.
    destruct (IH Hall') as [Hle _]. rewrite str_length in Hlen.
    simpl. rewrite !length_app. split; [lia | intros _; lia].
Qed.

Lemma pieces_all_kept rep ps :
  matched_texts ps = [] -> flat_map (replaced_by rep) ps = flat_map source_of ps.
Proof.
  induction ps as [|[c|text] ps IH]; intros H; [reflexivity | |].
  - simpl. now rewrite IH.
  - rewrite matched_texts_matched in H. discriminate H.
Qed.

(** X10: the transform never makes a text longer, and it leaves a text as
    it is exactly when it finds no block in it. *)
Theorem stripApacheLicense_unchanged_iff (contents : string) :
  String.length (stripApacheLicense contents) <= String.length contents
  /\ (stripApacheLicense contents = contents <-> licenseBlocks contents = []).
Proof.
  set (ps := pieces_from licenseRegex 0 (JS.chars contents)).
  assert (Hheaders : Forall isLicenseHeader (matched_texts ps)).
  { eapply Forall_impl; [|apply pieces_from_lang].
    intros block Hlang. apply licenseRegex_lang in Hlang.
    now rewrite str_chars in Hlang. }
  unfold licenseBlocks. fold ps.
  assert (Hout : JS.chars (stripApacheLicense contents)
                 = flat_map (replaced_by (JS.chars fourLineFeeds)) ps).
  { unfold stripApacheLicense, replace_global. rewrite chars_str.
    apply replace_from_pieces. }
  assert (Hin : JS.chars contents = flat_map source_of ps).
  { unfold ps. now rewrite pieces_from_source by apply Nat.le_0_l. }
  assert (Hlens : Forall (fun block => List.length (JS.chars fourLineFeeds)
                                       < String.length block) (matched_texts ps)).
  { eapply Forall_impl; [|exact Hheaders].
    intros block (year & owner & reserved & minor & -> & _).
    apply licenseHeader_length. }
  destruct (pieces_lengths _ _ Hlens) as [Hle Hlt].
  rewrite <- Hout, <- Hin, !chars_length in Hle, Hlt.
  split; [exact Hle|]. split.
  - intros Hsame. destruct (matched_texts ps) as [|b bs] eqn:Hb; [reflexivity|].
    assert (Hne : b :: bs <> []) by discriminate.
    specialize (Hlt Hne). rewrite Hsame in Hlt. lia.
  - intros Hnone. rewrite <- (str_chars (stripApacheLicense contents)), Hout.
    rewrite (pieces_all_kept _ _ Hnone), <- Hin. apply str_chars.
Qed.

(** ** Language files *)

Lemma substring_append_skip (pre t : string) (m : nat) :
  substring (String.length pre) m (pre ++ t) = substring 0 m t.
Proof. induction pre as [|c pre IH]; simpl; [reflexivity | exact IH]. Qed.

Lemma substring_whole (s : string) : substring 0 (String.length s) s = s.
Proof. induction s as [|c s IH]; simpl; [reflexivity | now rewrite IH]. Qed.

Lemma substring_split (s : string) : forall n,
  n <= String.length s ->
  s = substring 0 n s ++ substring n (String.length s - n) s.
Proof.
  induction s as [|c s IH]; intros n Hn.
  - destruct n; reflexivity.
  - destruct n as [|n]; simpl.
    + now rewrite substring_whole.
    + simpl in Hn. f_equal. apply IH. lia.
Qed.

Lemma endsWith_iff (s suffix : string) :
  endsWith s suffix = true <-> exists pre, s = pre ++ suffix.
Proof.
  unfold endsWith. split.
  - destruct (Nat.leb (String.length suffix) (String.length s)) eqn:Hle; [|discriminate].
    apply Nat.leb_le in Hle. intros H. apply String.eqb_eq in H.
    exists (substring 0 (String.length s - String.length suffix) s).
    pose proof (substring_split s (String.length s - String.length suffix)
                  ltac:(lia)) as Hsplit.
    replace (String.length s - (String.length s - String.length suffix))
      with (String.length suffix) in Hsplit by lia.
    now rewrite H in Hsplit.
  - intros (pre & ->). rewrite append_length.
    replace (Nat.leb _ _) with true by (symmetry; apply Nat.leb_le; lia).
    replace (String.length pre + String.length suffix - String.length suffix)
      with (String.length pre) by lia.
    rewrite substring_append_skip, substring_whole. apply String.eqb_refl.
Qed.

Lemma test_to_end_found r s :
  test_to_end r s = true ->
  exists pre m, s = (pre ++ m)%list /\ lang r m.
Proof.
  induction s as [|c s IH]; simpl.
  - destruct (run r [] at_end) as [x|] eqn:Hrun; [|discriminate]. intros _.
    destruct (run_lang _ _ _ _ Hrun) as (m & s' & Hs & Hend & L).
    destruct s'; [|discriminate]. exists [], m. now rewrite app_nil_r in Hs.
  - destruct (run r (c :: s) at_end) as [x|] eqn:Hrun.
    + intros _. destruct (run_lang _ _ _ _ Hrun) as (m & s' & Hs & Hend & L).
      destruct s'; [|discriminate]. exists [], m. now rewrite app_nil_r in Hs.
    + intros H. destruct (IH H) as (pre & m & -> & L). now exists (c :: pre), m.
Qed.

Lemma test_to_end_suffix r pre suffix :
  run r suffix at_end <> None -> test_to_end r (pre ++ suffix)%list = true.
Proof.
  intros Hrun. induction pre as [|c pre IH]; simpl.
  - destruct suffix; simpl; now destruct (run r _ at_end).
  - now destruct (run r (c :: pre ++ suffix)%list at_end).
Qed.

(** The names the pattern of [buildLangfiles] excludes. *)
Lemma notLanguage_iff (file : string) :
  test_to_end notLanguageRegex (JS.chars file) = true
  <-> exists pre word,
        In word [ "keys"; "synonyms"; "qqq"; "constants" ]
        /\ file = pre ++ word ++ ".json".
Proof.
  split.
  - intros H. apply test_to_end_found in H as (pre & m & Hs & L).
    unfold notLanguageRegex in L. cbn [lang] in L.
    destruct L as (m1 & m2 & -> & Hword & ->).
    assert (Hw : exists word, In word [ "keys"; "synonyms"; "qqq"; "constants" ]
                              /\ m1 = JS.chars word).
    { destruct Hword as [->|[->|[->| ->]]]; eexists; (split; [|reflexivity]);
        simpl; auto. }
    destruct Hw as (word & Hin & ->).
    exists (JS.str pre), word. split; [exact Hin|].
    rewrite <- (str_chars file), Hs, !str_app, !str_chars. reflexivity.
  - intros (pre & word & Hin & ->). rewrite chars_app.
    apply test_to_end_suffix.
    simpl in Hin. destruct Hin as [<-|[<-|[<-|[<-|[]]]]]; discriminate.
Qed.

(** X12: of any listing of [msg/json], [buildLangfiles] keeps the names
    that end in [json] and do not end in [keys.json], [synonyms.json],
    [qqq.json] or [constants.json]; a name that only ends with one of
    these, such as [monkeys.json], is dropped as well.  Names are judged one
    by one and stay in listing order. *)
Theorem languageFiles_spec (json_files : list string) (file : string) :
  (In file (languageFiles json_files)
   <-> In file json_files
       /\ (exists pre, file = pre ++ "json")
       /\ ~ (exists pre word,
               In word [ "keys"; "synonyms"; "qqq"; "constants" ]
               /\ file = pre ++ word ++ ".json"))
  /\ (forall before after,
        json_files = (before ++ after)%list ->
        languageFiles json_files
        = (languageFiles before ++ languageFiles after)%list).
Proof.
  split.
  - unfold languageFiles. rewrite filter_In, andb_true_iff, negb_true_iff.
    rewrite endsWith_iff, <- notLanguage_iff.
    destruct (test_to_end notLanguageRegex (JS.chars file)); intuition congruence.
  - intros before after ->. apply filter_app.
Qed.

Example languageFiles_listing :
  languageFiles
    [ "en.json"; "qqq.json"; "keys.json"; "fr.json"; "README.md"; "synonyms.json";
      "constants.json"; "monkeys.json"; "pt-br.json" ]
  = [ "en.json"; "fr.json"; "pt-br.json" ].
Proof. reflexivity. Qed.

(** ** Compiler options *)

Lemma obj_get_set {V : Type} (obj : list (string * V)) (key k : string) (v : V) :
  obj_get (obj_set key v obj) k = if String.eqb key k then Some v else obj_get obj k.
Proof.
  induction obj as [|[k0 v0] obj IH]; simpl.
  - reflexivity.
  - destruct (String.eqb k0 key) eqn:H0; simpl.
    + apply String.eqb_eq in H0 as ->. now destruct (String.eqb key k).
    + rewrite IH. destruct (String.eqb k0 k) eqn:H1; [|reflexivity].
      apply String.eqb_eq in H1 as ->. now rewrite String.eqb_sym, H0.
Qed.

Lemma obj_get_absent {V : Type} (obj : list (string * V)) (k : string) :
  ~ In k (map fst obj) -> obj_get obj k = None.
Proof.
  induction obj as [|[k0 v0] obj IH]; intros H; simpl; [reflexivity|].
  simpl in H. destruct (String.eqb k0 k) eqn:H0.
  - apply String.eqb_eq in H0. tauto.
  - apply IH. tauto.
Qed.

(** Reading a property of [{...target, ...src}]. *)
Lemma obj_get_spread {V : Type} (src : list (string * V)) : forall target k,
  NoDup (map fst src) ->
  obj_get (spread src target) k
  = match obj_get src k with
    | Some v => Some v
    | None => obj_get target k
    end.
Proof.
  unfold spread. induction src as [|[k0 v0] src IH]; intros target k Hnd; simpl.
  - reflexivity.
  - inversion Hnd as [|? ? Hk0 Hnd']; subst.
    rewrite IH by exact Hnd'. rewrite obj_get_set. simpl.
    destruct (String.eqb k0 k) eqn:H0; [|reflexivity].
    apply String.eqb_eq in H0 as <-. now rewrite obj_get_absent.
Qed.

Lemma defaultOptions_spread argv : spread (defaultOptions argv) [] = defaultOptions argv.
Proof. destruct argv as [[] [] []]; reflexivity. Qed.

(** X13: an option the caller of [compile] gives replaces the default of
    the same name, and every other default stays: the compiler gets the
    caller's value for each key the caller names and the default for each
    key it does not. *)
Theorem compile_overrides (argv : Argv) (options : Options) (key : string) :
  NoDup (map fst options) ->
  obj_get (compilerOptions (compile argv options)) key
  = match obj_get options key with
    | Some v => Some v
    | None => obj_get (defaultOptions argv) key
    end.
Proof.
  intros Hnd. unfold compile. simpl.
  now rewrite obj_get_spread, defaultOptions_spread.
Qed.

(** [compile_overrides] at the options of the advanced compilation test. *)
Lemma compile_overrides_example :
  obj_get
    (compilerOptions
       (compile {| verbose := false; debug := false; strict := false |}
          [ ("compilation_level", OString "ADVANCED_OPTIMIZATIONS");
            ("js_output_file", OString "main_compressed.js") ]))
    "compilation_level"
  = Some (OString "ADVANCED_OPTIMIZATIONS").
Proof.
  apply (compile_overrides {| verbose := false; debug := false; strict := false |}
           [ ("compilation_level", OString "ADVANCED_OPTIMIZATIONS");
             ("js_output_file", OString "main_compressed.js") ]
           "compilation_level").
  repeat constructor; simpl; intuition discriminate.
Defined.

Lemma disjoint_by_test (l1 l2 : list string) :
  forallb (fun g => negb (existsb (String.eqb g) l2)) l1 = true ->
  forall g, In g l1 -> ~ In g l2.
Proof.
  intros H g H1 H2. rewrite forallb_forall in H. specialize (H g H1).
  apply negb_true_iff in H.
  assert (existsb (String.eqb g) l2 = true).
  { apply existsb_exists. exists g. split; [exact H2 | apply String.eqb_refl]. }
  congruence.
Qed.

(** X14: whatever the flags, the defaults turn the groups of [JSCOMP_OFF]
    off; they name groups to report as errors and warnings exactly under
    [--debug] or [--strict], [strictCheckTypes] being an error exactly under
    [--strict]; and no group turned off is at the same time reported as an
    error or a warning. *)
Theorem defaultOptions_diagnostic_groups (argv : Argv) :
  obj_get (defaultOptions argv) "jscomp_off" = Some (OArray JSCOMP_OFF)
  /\ obj_get (defaultOptions argv) "jscomp_error"
     = (if debug argv || strict argv
        then Some (OArray (JSCOMP_ERROR
                             ++ if strict argv then [ "strictCheckTypes" ] else [])%list)
        else None)
  /\ obj_get (defaultOptions argv) "jscomp_warning"
     = (if debug argv || strict argv then Some (OArray JSCOMP_WARNING) else None)
  /\ (forall key groups group,
        key = "jscomp_error" \/ key = "jscomp_warning" ->
        obj_get (defaultOptions argv) key = Some (OArray groups) ->
        In group groups -> ~ In group JSCOMP_OFF).
Proof.
  split; [|split; [|split]].
  - destruct argv as [[] [] []]; reflexivity.
  - destruct argv as [[] [] []]; reflexivity.
  - destruct argv as [[] [] []]; reflexivity.
  - intros key groups group [-> | ->] Hget;
      destruct argv as [[] [] []]; simpl in Hget;
      try discriminate Hget; injection Hget as <-;
      apply disjoint_by_test; reflexivity.
Qed.

Section BuildCompiledFacts.

Variable TSC_OUTPUT_DIR_POSIX : string.
Variable RELEASE_DIR : string.
Variable globSync : string -> string -> list string.
Variable version : string.
Variable argv : Argv.

Local Abbreviation build :=
  (buildCompiled TSC_OUTPUT_DIR_POSIX RELEASE_DIR globSync version argv).
Local Abbreviation passed := (compilerOptions (compilerCall build)).
Local Abbreviation manifest := (getChunkOptions TSC_OUTPUT_DIR_POSIX globSync chunks).

(** X15: what [buildCompiled] hands to the compiler.  The [define] option
    is the one string that sets [VERSION] on the module object of the first
    chunk: the default [define] of [compile], [COMPILED=true], is replaced
    by it, not added to.  The chunk descriptors and wrappers of the manifest
    are passed as options, the file list is not: it is the input of
    [gulp.src].  The namespace option names the variable the wrappers
    declare, and the other defaults of [compile] stay. *)
Theorem buildCompiled_options :
  obj_get passed "define"
  = Some (OString ("VERSION$$" ++ modulePath TSC_OUTPUT_DIR_POSIX blocklyChunk
                     ++ "='" ++ version ++ "'"))
  /\ obj_get passed "define" <> obj_get (defaultOptions argv) "define"
  /\ obj_get passed "chunk" = Some (OArray (chunk manifest))
  /\ obj_get passed "chunk_wrapper" = Some (OArray (chunk_wrapper manifest))
  /\ obj_get passed "js" = None
  /\ sources build = js manifest
  /\ obj_get passed "rename_prefix_namespace" = Some (OString "$")
  /\ (forall key,
        ~ In key [ "define"; "chunk"; "chunk_wrapper"; "rename_prefix_namespace" ] ->
        obj_get passed key = obj_get (defaultOptions argv) key).
Proof.
  assert (Hnd : NoDup (map fst (buildCompiledOptions TSC_OUTPUT_DIR_POSIX version manifest))).
  { repeat constructor; simpl; intuition discriminate. }
  assert (Hget : forall key,
             obj_get passed key
             = match obj_get (buildCompiledOptions TSC_OUTPUT_DIR_POSIX version manifest) key with
               | Some v => Some v
               | None => obj_get (defaultOptions argv) key
               end).
  { intros key. unfold buildCompiled, compile. cbn [compilerCall compilerOptions].
    now rewrite obj_get_spread, defaultOptions_spread. }
  repeat split.
  - now rewrite Hget.
  - rewrite Hget. destruct argv as [[] [] []]; discriminate.
  - now rewrite Hget.
  - now rewrite Hget.
  - rewrite Hget. destruct argv as [[] [] []]; reflexivity.
  - now rewrite Hget.
  - intros key Hkey. rewrite Hget. rewrite obj_get_absent; [reflexivity|].
    exact Hkey.
Qed.

End BuildCompiledFacts.

(** ** [buildJavaScript] *)

Section ExecFacts.

Variable World : Type.
Variable os_exec : string -> World -> Completion unit * World.
Variable TSC_OUTPUT_DIR : string.
Variable TYPINGS_BUILD_DIR : string.

Local Abbreviation tsc := (tscCommand TSC_OUTPUT_DIR TYPINGS_BUILD_DIR).
Local Abbreviation tsick := (tsickCommand TSC_OUTPUT_DIR).


End ExecFacts.

(** ** Reading the manifest back *)

Lemma splitAtColon_entry (label text : string) :
  no_colon label = true -> splitAtColon (label ++ ":" ++ text) = Some (label, text).
Proof.
  unfold no_colon. induction label as [|c label IH]; intros H; simpl in *.
  - reflexivity.
  - apply andb_true_iff in H as [Hc H]. apply negb_true_iff in Hc.
    now rewrite Hc, IH.
Qed.

Lemma split_chunkOption (c : Chunk) (n : nat) :
  plain_names c = true ->
  JS.split ":" (chunkOption c n)
  = name c :: JS.of_nat n
      :: match parent c with
         | Some p => [ name p ]
         | None => []
         end.
Proof.
  unfold plain_names, chunkOption, JS.split. intros H.
  apply andb_true_iff in H as [Hname Hparent].
  rewrite !append_assoc. change (":" ++ ?x) with (String ":" x).
  rewrite split_go_sep by exact Hname. simpl "++". f_equal.
  destruct (parent c) as [p|].
  - change (":" ++ ?x) with (String ":" x).
    rewrite split_go_sep by apply string_of_uint_no_colon.
    now rewrite split_go_no_sep by exact Hparent.
  - now rewrite append_nil_r, split_go_no_sep by apply string_of_uint_no_colon.
Qed.

Section ManifestReading.

Variable TSC_OUTPUT_DIR_POSIX : string.
Variable globSync : string -> string -> list string.

Local Abbreviation manifest := (getChunkOptions TSC_OUTPUT_DIR_POSIX globSync).

(** X17: when the names of the chunks and of their parents hold no colon,
    every entry of the manifest reads back field by field: the descriptor
    of a chunk splits at its colons into the chunk's name, the decimal file
    count and, for a chunk with a parent, the parent's name; and the wrapper
    entry cut at its first colon is the chunk's name and the chunk's
    wrapper. *)
Theorem getChunkOptions_entries (cs : list Chunk) :
  forallb plain_names cs = true ->
  map (JS.split ":") (chunk (manifest cs))
  = map (fun c =>
           name c
             :: JS.of_nat (List.length (resolvedFiles TSC_OUTPUT_DIR_POSIX globSync c))
             :: match parent c with
                | Some p => [ name p ]
                | None => []
                end) cs
  /\ map splitAtColon (chunk_wrapper (manifest cs))
     = map (fun c => Some (name c, chunkWrapper TSC_OUTPUT_DIR_POSIX c)) cs.
Proof.
  intros Hnames. rewrite forallb_forall in Hnames.
  rewrite getChunkOptions_fields. simpl. rewrite !map_map. split.
  - apply map_ext_in. intros c Hc. now apply split_chunkOption, Hnames.
  - apply map_ext_in. intros c Hc. apply splitAtColon_entry.
    specialize (Hnames c Hc). unfold plain_names in Hnames.
    now apply andb_true_iff in Hnames as [H _].
Qed.

End ManifestReading.

(** [getChunkOptions_entries] on the chunks of the script, with one file
    for every glob. *)
Lemma getChunkOptions_entries_example :
  map (JS.split ":")
      (chunk (getChunkOptions "build/src" (fun glob _ => [glob]) chunks))
  = [ [ "blockly"; "1" ]; [ "blocks"; "1"; "blockly" ];
      [ "javascript"; "2"; "blockly" ]; [ "python"; "2"; "blockly" ];
      [ "php"; "2"; "blockly" ]; [ "lua"; "2"; "blockly" ];
      [ "dart"; "2"; "blockly" ] ].
Proof.
  exact (proj1 (getChunkOptions_entries "build/src" (fun glob _ => [glob]) chunks
                  eq_refl)).
Defined.
